(** * Card Sandbox: a shallow embedding of [main.py]

    The program keeps a shuffled deck of 52 [Card] objects, a list of the
    cards lying on the table and a reference to the card being dragged.
    Cards are mutable Python objects that are reached through several
    references at once (the table list and [held_card]), so the embedding
    keeps them in an object heap and lets the deck, the table and
    [held_card] hold references into it. *)

From Stdlib Require Import ZArith Lia.
From stdpp Require Import base option list strings.

(** ** Constants of the module *)

Definition Color : Type := Z * Z * Z.
Definition Pos : Type := Z * Z.

Definition SCREEN_WIDTH : Z := 1200.
Definition SCREEN_HEIGHT : Z := 900.
Definition BG_COLOR : Color := (0, 100, 0)%Z.

Definition CARD_WIDTH : Z := 80.
Definition CARD_HEIGHT : Z := 120.
Definition CARD_CORNER_RADIUS : Z := 5.
Definition CARD_OUTLINE_WIDTH : Z := 2.

Definition COLOR_WHITE : Color := (255, 255, 255)%Z.
Definition COLOR_BLACK : Color := (0, 0, 0)%Z.
Definition COLOR_RED : Color := (200, 0, 0)%Z.
Definition COLOR_GREY : Color := (150, 150, 150)%Z.
Definition COLOR_YELLOW_SELECT : Color := (255, 255, 0)%Z.

Definition DECK_POS : Pos := (30, 30)%Z.

(** ** The part of [pygame.Rect] the program uses

    A rectangle is its origin and its size.  [collidepoint] is inclusive on
    the left and top edges and exclusive on the right and bottom ones;
    the centre is the origin plus half the size ([>> 1] in pygame), and
    assigning the centre moves the origin and keeps the size. *)

Module Rect.
Record t : Type := mk { x : Z; y : Z; w : Z; h : Z }.

Definition collidepoint (r : t) (p : Pos) : bool :=
  (x r <=? p.1)%Z && (p.1 <? x r + w r)%Z &&
  (y r <=? p.2)%Z && (p.2 <? y r + h r)%Z.

Definition center (r : t) : Pos :=
  (x r + Z.shiftr (w r) 1, y r + Z.shiftr (h r) 1)%Z.

Definition set_center (p : Pos) (r : t) : t :=
  mk (p.1 - Z.shiftr (w r) 1) (p.2 - Z.shiftr (h r) 1) (w r) (h r).

Definition set_x (v : Z) (r : t) : t := mk v (y r) (w r) (h r).
Definition set_y (v : Z) (r : t) : t := mk (x r) v (w r) (h r).

Definition topleft (r : t) : Pos := (x r, y r).
End Rect.

(** ** Drawing

    Rendering is recorded as the list of requests sent to the screen.  A
    [Surface] names one of the two images a card builds in its constructor;
    [Picture] is what was painted on such an image. *)

Abbreviation ref := nat.

Inductive Surface : Type :=
  | image_of (c : ref)
  | back_image_of (c : ref).

Inductive DrawOp : Type :=
  | Fill (col : Color)
  | Blit (src : Surface) (dest : Rect.t)
  | DrawRect (col : Color) (r : Rect.t) (width radius : Z).

Inductive Paint : Type :=
  | PFill (col : Color)
  | POutline (col : Color) (width radius : Z)
  | PText (size : Z) (text : string) (col : Color) (at_ : Pos)
  | PTextCentered (size : Z) (text : string) (col : Color).

Definition Picture : Type := list Paint.

(** ** class Card *)

Module Card.
Record t : Type := mk {
  rank : string;
  suit_char : string;
  suit_color : Color;
  is_flipped : bool;
  rect : Rect.t
}.

Definition _create_image (self : t) : Picture :=
  [ PFill COLOR_WHITE;
    POutline COLOR_BLACK CARD_OUTLINE_WIDTH CARD_CORNER_RADIUS;
    PText 20 (rank self) (suit_color self) (5, 5)%Z;
    PText 20 (suit_char self) (suit_color self) (5, 25)%Z;
    PTextCentered 40 (suit_char self) (suit_color self) ].

Definition _create_back_image (self : t) : Picture :=
  [ PFill (20, 50, 150)%Z;
    POutline COLOR_GREY CARD_OUTLINE_WIDTH CARD_CORNER_RADIUS ].

(** [Card(rank, suit_char, suit_color)]: face down, with the rectangle of
    a fresh [CARD_WIDTH] x [CARD_HEIGHT] surface, whose origin is (0, 0). *)
Definition __init__ (rank : string) (suit_char : string) (suit_color : Color) : t :=
  mk rank suit_char suit_color false (Rect.mk 0 0 CARD_WIDTH CARD_HEIGHT).

Definition flip (self : t) : t :=
  mk (rank self) (suit_char self) (suit_color self)
     (negb (is_flipped self)) (rect self).

Definition with_rect (f : Rect.t → Rect.t) (self : t) : t :=
  mk (rank self) (suit_char self) (suit_color self)
     (is_flipped self) (f (rect self)).

Definition draw (self_ref : ref) (self : t) : list DrawOp :=
  if is_flipped self
  then [Blit (image_of self_ref) (rect self)]
  else [Blit (back_image_of self_ref) (rect self)].

Definition draw_highlight (self : t) : list DrawOp :=
  [DrawRect COLOR_YELLOW_SELECT (rect self) 4 CARD_CORNER_RADIUS].
End Card.

Global Instance Rect_inhabited : Inhabited Rect.t := populate (Rect.mk 0 0 0 0).
Global Instance Rect_eq_dec : EqDecision Rect.t.
Proof. solve_decision. Defined.
Global Instance Card_inhabited : Inhabited Card.t :=
  populate (Card.mk "" "" (0, 0, 0)%Z false inhabitant).

(** ** The object heap

    Card objects in allocation order; a reference is the index of the
    object.  Python never holds a reference to an object that does not
    exist; [Game.wf] below records this and holds in every reachable
    state. *)

Abbreviation Heap := (list Card.t).

Definition alloc (hp : Heap) (c : Card.t) : ref * Heap := (length hp, hp ++ [c]).

(** What a surface shows. *)
Definition pixels (hp : Heap) (s : Surface) : Picture :=
  match s with
  | image_of c => Card._create_image (hp !!! c)
  | back_image_of c => Card._create_back_image (hp !!! c)
  end.

(** ** Python list operations *)

(** [l.pop()]: the last element and the list without it; [None] stands for
    the [IndexError] of an empty list. *)
Definition list_pop {A} (l : list A) : option (A * list A) :=
  match last l with
  | Some v => Some (v, take (length l - 1) l)
  | None => None
  end.

(** [l.remove(x)]: drops the first element equal to [x]; [None] stands for
    the [ValueError] raised when there is none. *)
Fixpoint list_remove (x : ref) (l : list ref) : option (list ref) :=
  match l with
  | [] => None
  | y :: l' => if decide (x = y) then Some l' else (y ::.) <$> list_remove x l'
  end.

(** ** [random.shuffle]

    The generator is the sequence of raw values it is going to produce;
    [randbelow n] reduces the next one below [n].  Every behaviour of the
    real generator is the behaviour of one such sequence. *)

Definition Rng : Type := list nat.

Definition randbelow (rng : Rng) (n : nat) : nat * Rng :=
  (hd 0 rng `mod` n, tl rng).

(** [x[i], x[j] = x[j], x[i]]: both reads come first, then the two writes.
    [shuffle_from] only calls it with [j <= i < len(x)]; for an index out of
    range, where Python raises [IndexError], the list is returned as it is. *)
Definition swap {A} (i j : nat) (x : list A) : list A :=
  match x !! i, x !! j with
  | Some xi, Some xj => <[j := xi]> (<[i := xj]> x)
  | _, _ => x
  end.

(** The exchange of positions [i] and [j] that [swap] performs. *)
Definition transpose (i j k : nat) : nat :=
  if decide (k = i) then j else if decide (k = j) then i else k.

(** [for i in reversed(range(1, n + 1))], from [i = n] down to [i = 1]. *)
Fixpoint shuffle_from {A} (n : nat) (rng : Rng) (x : list A) : list A * Rng :=
  match n with
  | 0 => (x, rng)
  | S n' =>
      let '(j, rng') := randbelow rng (n + 1) in
      shuffle_from n' rng' (swap n j x)
  end.

Definition random_shuffle {A} (rng : Rng) (x : list A) : list A * Rng :=
  shuffle_from (length x - 1) rng x.

(** ** class Deck *)

Module Deck.
Record t : Type := mk {
  cards : list ref;
  deck_rect : Rect.t
}.

(** The [suits] dictionary in insertion order, which is the order
    [suits.items()] iterates in, and the [ranks] list. *)
Definition suits : list (string * Color) :=
  [ ("♠", COLOR_BLACK); ("♣", COLOR_BLACK); ("♥", COLOR_RED); ("♦", COLOR_RED) ].

Definition ranks : list string :=
  [ "A"; "2"; "3"; "4"; "5"; "6"; "7"; "8"; "9"; "10"; "J"; "Q"; "K" ].

(** [cards.append(Card(rank, suit_char, color))] *)
Definition append_card (suit : string * Color) (acc : list ref * Heap)
    (rank : string) : list ref * Heap :=
  let '(c, hp) := alloc acc.2 (Card.__init__ rank suit.1 suit.2) in
  (acc.1 ++ [c], hp).

Definition _generate (hp : Heap) : list ref * Heap :=
  foldl (λ acc suit, foldl (append_card suit) acc ranks) ([], hp) suits.

Definition shuffle (rng : Rng) (self : t) : t * Rng :=
  let '(cs, rng') := random_shuffle rng (cards self) in
  (mk cs (deck_rect self), rng').

Definition __init__ (rng : Rng) (hp : Heap) : t * Heap * Rng :=
  let '(cs, hp') := _generate hp in
  let '(self, rng') :=
    shuffle rng (mk cs (Rect.mk DECK_POS.1 DECK_POS.2 CARD_WIDTH CARD_HEIGHT)) in
  (self, hp', rng').

(** The card returned, if any, and the deck afterwards; the outer [None]
    stands for an exception leaving the method. *)
Definition draw_card (self : t) : option (option ref * t) :=
  match cards self with
  | [] => Some (None, self)
  | _ :: _ =>
      match list_pop (cards self) with
      | Some (c, rest) => Some (Some c, mk rest (deck_rect self))
      | None => None
      end
  end.

Definition draw (self : t) : list DrawOp :=
  match cards self with
  | c0 :: _ => [Blit (back_image_of c0) (deck_rect self)]
  | [] => [DrawRect COLOR_GREY (deck_rect self) 2 CARD_CORNER_RADIUS]
  end.
End Deck.

(** ** class Game *)

Inductive Event : Type :=
  | QUIT
  | MOUSEBUTTONDOWN (button : Z) (pos : Pos)
  | MOUSEBUTTONUP (button : Z) (pos : Pos)
  | MOUSEMOTION (pos : Pos)
  | OTHER.

(** The attributes of the [Game] object that the handlers use, together
    with [heap], the [Card] objects they refer to. *)
Module Game.
Record t : Type := mk {
  heap : Heap;
  deck : Deck.t;
  cards_on_table : list ref;
  held_card : option ref;
  drag_offset : Z * Z
}.

Definition __init__ (rng : Rng) : t :=
  let '(d, hp, _) := Deck.__init__ rng [] in
  mk hp d [] None (0, 0)%Z.

(** What a handler did: the cards on the table whose rectangle it tested
    against the pointer, in the order tested, and the state it left;
    [None] for the state stands for an uncaught exception. *)
Record Outcome : Type := Out {
  probed : list ref;
  result : option t
}.

(** [for card in reversed(...): if card.rect.collidepoint(pos): ... break],
    run over the cards in iteration order: the cards tested and the card
    the loop body runs on. *)
Fixpoint first_hit (hp : Heap) (pos : Pos) (cs : list ref) : list ref * option ref :=
  match cs with
  | [] => ([], None)
  | card :: cs' =>
      if Rect.collidepoint (Card.rect (hp !!! card)) pos
      then ([card], Some card)
      else let '(tr, r) := first_hit hp pos cs' in (card :: tr, r)
  end.

(** The [if event.button == 3:] block. *)
Definition right_click (self : t) (button : Z) (pos : Pos) (tr : list ref) : Outcome :=
  if (button =? 3)%Z then
    let '(tr', hit) := first_hit (heap self) pos (reverse (cards_on_table self)) in
    match hit with
    | Some card =>
        Out (tr ++ tr')
            (Some (mk (alter Card.flip card (heap self)) (deck self)
                      (cards_on_table self) (held_card self) (drag_offset self)))
    | None => Out (tr ++ tr') (Some self)
    end
  else Out tr (Some self).

(** A [Card] object is always true in [if new_card:], so that test only
    separates a card from [None].  The deck branch ends in [return]; after
    the table loop control reaches the [if event.button == 3:] block. *)
Definition handle_mouse_down (self : t) (button : Z) (pos : Pos) : Outcome :=
  if (button =? 1)%Z then
    if Rect.collidepoint (Deck.deck_rect (deck self)) pos then
      match Deck.draw_card (deck self) with
      | Some (Some c, d) =>
          let hp := alter (Card.with_rect (Rect.set_center pos)) c (heap self) in
          let r := Card.rect (hp !!! c) in
          Out [] (Some (mk hp d (cards_on_table self ++ [c]) (Some c)
                           (pos.1 - Rect.x r, pos.2 - Rect.y r)%Z))
      | Some (None, d) =>
          Out [] (Some (mk (heap self) d (cards_on_table self)
                           (held_card self) (drag_offset self)))
      | None => Out [] None
      end
    else
      let '(tr, hit) := first_hit (heap self) pos (reverse (cards_on_table self)) in
      match hit with
      | Some card =>
          match list_remove card (cards_on_table self) with
          | Some rest =>
              let r := Card.rect (heap self !!! card) in
              right_click
                (mk (heap self) (deck self) (rest ++ [card]) (Some card)
                    (pos.1 - Rect.x r, pos.2 - Rect.y r)%Z)
                button pos tr
          | None => Out tr None
          end
      | None => right_click self button pos tr
      end
  else right_click self button pos [].

Definition handle_mouse_up (self : t) (button : Z) : t :=
  if (button =? 1)%Z
  then mk (heap self) (deck self) (cards_on_table self) None (drag_offset self)
  else self.

Definition handle_mouse_motion (self : t) (pos : Pos) : t :=
  match held_card self with
  | Some c =>
      let hp1 :=
        alter (Card.with_rect (Rect.set_x (pos.1 - (drag_offset self).1)%Z)) c (heap self) in
      let hp2 :=
        alter (Card.with_rect (Rect.set_y (pos.2 - (drag_offset self).2)%Z)) c hp1 in
      mk hp2 (deck self) (cards_on_table self) (held_card self) (drag_offset self)
  | None => self
  end.

(** [Game.draw] *)
Definition draw (self : t) : list DrawOp :=
  [Fill BG_COLOR]
  ++ Deck.draw (deck self)
  ++ flat_map (λ c, Card.draw c (heap self !!! c)) (cards_on_table self)
  ++ match held_card self with
     | Some c => Card.draw_highlight (heap self !!! c)
     | None => []
     end.

(** One iteration of the body of [for event in pygame.event.get()]. *)
Definition dispatch (self : t) (ev : Event) : option t :=
  match ev with
  | MOUSEBUTTONDOWN button pos => result (handle_mouse_down self button pos)
  | MOUSEBUTTONUP button _ => Some (handle_mouse_up self button)
  | MOUSEMOTION pos => Some (handle_mouse_motion self pos)
  | QUIT | OTHER => Some self
  end.

(** [for event in pygame.event.get(): ...] over the events delivered, in
    order; [None] when a handler raised. *)
Fixpoint handle_events (self : t) (evs : list Event) : option t :=
  match evs with
  | [] => Some self
  | ev :: evs' =>
      match dispatch self ev with
      | Some self' => handle_events self' evs'
      | None => None
      end
  end.

Definition is_QUIT (ev : Event) : bool :=
  match ev with QUIT => true | _ => false end.

(** The [while running] loop, given the batch of events each call of
    [pygame.event.get()] returns: every batch is handled to its end, the
    frame is drawn, and the loop stops after a batch that held a [QUIT].
    The result is the last state and the frames drawn. *)
Fixpoint run (self : t) (batches : list (list Event))
    : option (t * list (list DrawOp)) :=
  match batches with
  | [] => Some (self, [])
  | evs :: batches' =>
      match handle_events self evs with
      | Some self' =>
          if existsb is_QUIT evs then Some (self', [draw self'])
          else
            match run self' batches' with
            | Some (final, frames) => Some (final, draw self' :: frames)
            | None => None
            end
      | None => None
      end
  end.

(** References denote objects, no object is in two places, the held card
    lies on the table, and the cards still in the deck are face down. *)
Definition wf (g : t) : Prop :=
  NoDup (Deck.cards (deck g) ++ cards_on_table g)
  ∧ Forall (λ c, c < length (heap g)) (Deck.cards (deck g) ++ cards_on_table g)
  ∧ from_option (λ c, c ∈ cards_on_table g) True (held_card g)
  ∧ Forall (λ c, Card.is_flipped (heap g !!! c) = false) (Deck.cards (deck g)).
End Game.

(** Successive calls of [draw_card], with the card each one returned. *)
Fixpoint draws (n : nat) (d : Deck.t) : option (list (option ref) * Deck.t) :=
  match n with
  | 0 => Some ([], d)
  | S n' =>
      match Deck.draw_card d with
      | Some (r, d') =>
          match draws n' d' with
          | Some (rs, d'') => Some (r :: rs, d'')
          | None => None
          end
      | None => None
      end
  end.

(** The pointer is over the card: its current rectangle contains [pos]. *)
Definition contains (hp : Heap) (pos : Pos) (c : ref) : Prop :=
  Rect.collidepoint (Card.rect (hp !!! c)) pos = true.

(** The card with the origin of its rectangle at [o]. *)
Definition move_to (o : Pos) : Card.t → Card.t :=
  Card.with_rect (λ r, Rect.mk o.1 o.2 (Rect.w r) (Rect.h r)).

(** The (rank, suit) pair printed on the card behind a reference. *)
Definition face (hp : Heap) (c : ref) : string * string :=
  (Card.rank (hp !!! c), Card.suit_char (hp !!! c)).

Global Instance contains_dec hp pos c : Decision (contains hp pos c).
Proof. unfold contains. apply _. Defined.

Global Instance wf_dec g : Decision (Game.wf g).
Proof. unfold Game.wf. destruct (Game.held_card g); simpl; apply _. Defined.

(** A press on a card at [p], pointer moves through [ms] and then to [p'],
    and the release at [q]. *)
Definition drag_events (p : Pos) (ms : list Pos) (p' q : Pos) : list Event :=
  [MOUSEBUTTONDOWN 1 p] ++ (MOUSEMOTION <$> ms)
  ++ [MOUSEMOTION p'; MOUSEBUTTONUP 1 q].

(** Sessions used as examples: the state after [evs], started with the
    generator that always answers 0. *)
Definition session (evs : list Event) : Game.t :=
  default (Game.__init__ []) (Game.handle_events (Game.__init__ []) evs).

Definition draw_two : list Event :=
  [ MOUSEBUTTONDOWN 1 (50, 50)%Z; MOUSEMOTION (300, 300)%Z;
    MOUSEBUTTONUP 1 (300, 300)%Z;
    MOUSEBUTTONDOWN 1 (60, 60)%Z; MOUSEMOTION (320, 330)%Z;
    MOUSEBUTTONUP 1 (320, 330)%Z ].

(** The ways an event can change the state: not at all, by drawing the last
    card of the deck onto the table, by bringing a card of the table to the
    front, by flipping a card of the table, by releasing the held card and
    by moving the held card.  [dispatch_change] below shows that every
    event handled in a well-formed state makes one of these changes. *)
Inductive change (g : Game.t) : Game.t → Prop :=
  | change_none : change g g
  | change_draw cs c pos off :
      Deck.cards (Game.deck g) = cs ++ [c] →
      change g
        (Game.mk (alter (Card.with_rect (Rect.set_center pos)) c (Game.heap g))
           (Deck.mk cs (Deck.deck_rect (Game.deck g)))
           (Game.cards_on_table g ++ [c]) (Some c) off)
  | change_pick below c above off :
      Game.cards_on_table g = below ++ c :: above →
      change g
        (Game.mk (Game.heap g) (Game.deck g) (below ++ above ++ [c]) (Some c) off)
  | change_flip c :
      c ∈ Game.cards_on_table g →
      change g
        (Game.mk (alter Card.flip c (Game.heap g)) (Game.deck g)
           (Game.cards_on_table g) (Game.held_card g) (Game.drag_offset g))
  | change_release :
      change g
        (Game.mk (Game.heap g) (Game.deck g) (Game.cards_on_table g) None
           (Game.drag_offset g))
  | change_move c o :
      Game.held_card g = Some c →
      change g
        (Game.mk (alter (move_to o) c (Game.heap g)) (Game.deck g)
           (Game.cards_on_table g) (Some c) (Game.drag_offset g)).

(** The objects [_generate] creates, as they are before any event. *)
Definition new_cards : Heap := (Deck._generate []).2.

(** The request [Card.draw] sends for the card behind [c]. *)
Definition card_blit (hp : Heap) (c : ref) : DrawOp :=
  Blit (if Card.is_flipped (hp !!! c) then image_of c else back_image_of c)
       (Card.rect (hp !!! c)).

(** What events never change in a card: rank, suit, colour and size. *)
Definition fixed_part (card : Card.t) : string * string * Color * Z * Z :=
  (Card.rank card, Card.suit_char card, Card.suit_color card,
   Rect.w (Card.rect card), Rect.h (Card.rect card)).

(** A button press, the only event that can start a drag, draw or flip. *)
Definition is_press (ev : Event) : bool :=
  match ev with MOUSEBUTTONDOWN _ _ => true | _ => false end.

(** * Properties *)

Global Arguments Deck._generate : simpl never.
Global Arguments Deck.shuffle : simpl never.
Global Arguments Deck.__init__ : simpl never.
Global Arguments Game.__init__ : simpl never.
Global Arguments random_shuffle : simpl never.

(** Closed goals about an example session are settled by evaluation. *)
Ltac by_eval :=
  first [ vm_compute; reflexivity
        | apply (bool_decide_unpack _); vm_compute; exact I ].

(** ** Lists *)

Section list_ops.
Context {A : Type}.
Implicit Types (l : list A) (i j : nat).

Lemma list_pop_snoc l v : list_pop (l ++ [v]) = Some (v, l).
Proof.
  unfold list_pop. rewrite last_snoc, length_app. simpl.
  replace (length l + 1 - 1) with (length l) by lia.
  by rewrite take_app_length.
Qed.

Lemma swap_length i j l : length (swap i j l) = length l.
Proof.
  unfold swap. destruct (l !! i), (l !! j); try done.
  by rewrite !length_insert.
Qed.

Lemma transpose_inj i j : Inj (=) (=) (transpose i j).
Proof. intros a b. unfold transpose. repeat case_decide; congruence. Qed.

Lemma swap_lookup i j l k :
  i < length l → j < length l → swap i j l !! k = l !! transpose i j k.
Proof.
  intros [xi Hi]%lookup_lt_is_Some_2 [xj Hj]%lookup_lt_is_Some_2.
  unfold swap, transpose. rewrite Hi, Hj.
  assert (i < length l) by eauto using lookup_lt_Some.
  assert (j < length l) by eauto using lookup_lt_Some.
  destruct (decide (k = j)) as [->|Hkj].
  - rewrite list_lookup_insert_eq by (by rewrite length_insert).
    case_decide; congruence.
  - rewrite list_lookup_insert_ne by done.
    destruct (decide (k = i)) as [->|Hki].
    + by rewrite list_lookup_insert_eq.
    + by rewrite list_lookup_insert_ne.
Qed.

Lemma swap_Permutation i j l : swap i j l ≡ₚ l.
Proof.
  destruct (decide (i < length l ∧ j < length l)) as [[Hi Hj]|Hout].
  - apply Permutation_inj. split; [apply swap_length|].
    exists (transpose i j). split; [apply transpose_inj|].
    intros k. by apply swap_lookup.
  - unfold swap.
    destruct (l !! i) eqn:Ei; [|done]. destruct (l !! j) eqn:Ej; [|done].
    destruct Hout. eauto using lookup_lt_Some.
Qed.

Lemma shuffle_from_Permutation n rng l : (shuffle_from n rng l).1 ≡ₚ l.
Proof.
  revert rng l. induction n as [|n IH]; intros rng l; [done|].
  cbn [shuffle_from]. unfold randbelow. rewrite IH. apply swap_Permutation.
Qed.

Lemma random_shuffle_Permutation rng l : (random_shuffle rng l).1 ≡ₚ l.
Proof. apply shuffle_from_Permutation. Qed.
End list_ops.

Lemma list_remove_elem_of x l : x ∈ l → is_Some (list_remove x l).
Proof.
  induction l as [|y l IH]; [by intros ?%elem_of_nil|].
  intros Hx. simpl. case_decide; [by eexists|].
  apply elem_of_cons in Hx as [?|Hx]; [done|].
  destruct (IH Hx) as [l' ->]. simpl. by eexists.
Qed.

Lemma filter_ne_notin (x : ref) (l : list ref) :
  x ∉ l → filter (λ y, y ≠ x) l = l.
Proof.
  induction l as [|y l IH]; [done|].
  intros [Hxy Hx]%not_elem_of_cons.
  rewrite filter_cons_True by done. by rewrite IH.
Qed.

(** Without repetitions, removing [x] keeps exactly the other elements, in
    their order. *)
Lemma list_remove_NoDup x l :
  NoDup l → x ∈ l → list_remove x l = Some (filter (λ y, y ≠ x) l).
Proof.
  induction 1 as [|y l Hy Hl IH]; [by intros ?%elem_of_nil|].
  intros Hx. simpl. case_decide as Hxy.
  - subst y. rewrite filter_cons_False by naive_solver.
    by rewrite filter_ne_notin.
  - apply elem_of_cons in Hx as [?|Hx]; [done|].
    rewrite IH by done. simpl.
    by rewrite filter_cons_True by naive_solver.
Qed.

(** ** The deck *)

Lemma draw_card_snoc cs c r :
  Deck.draw_card (Deck.mk (cs ++ [c]) r) = Some (Some c, Deck.mk cs r).
Proof.
  unfold Deck.draw_card. simpl. rewrite list_pop_snoc.
  by destruct (cs ++ [c]) eqn:E; [destruct cs|].
Qed.

Lemma draw_card_nil r : Deck.draw_card (Deck.mk [] r) = Some (None, Deck.mk [] r).
Proof. done. Qed.

Lemma draws_all cs r :
  draws (length cs) (Deck.mk cs r) = Some (Some <$> reverse cs, Deck.mk [] r).
Proof.
  induction cs as [|c cs IH] using rev_ind; [done|].
  rewrite length_app, Nat.add_comm. simpl.
  rewrite draw_card_snoc, IH. by rewrite reverse_snoc.
Qed.

Lemma draws_nil k r :
  draws k (Deck.mk [] r) = Some (replicate k None, Deck.mk [] r).
Proof. induction k as [|k IH]; [done|]. simpl. by rewrite IH. Qed.

Lemma draws_app n m d :
  draws (n + m) d =
  match draws n d with
  | Some (rs, d') =>
      match draws m d' with
      | Some (rs', d'') => Some (rs ++ rs', d'')
      | None => None
      end
  | None => None
  end.
Proof.
  revert d. induction n as [|n IH]; intros d; simpl.
  - by destruct (draws m d) as [[??]|].
  - destruct (Deck.draw_card d) as [[r d']|]; [|done].
    rewrite IH. destruct (draws n d') as [[rs d'']|]; [|done].
    by destruct (draws m d'') as [[??]|].
Qed.

Lemma generate_cards : (Deck._generate []).1 = seq 0 52.
Proof. by vm_compute. Qed.

Lemma generate_heap_length : length (Deck._generate []).2 = 52.
Proof. by vm_compute. Qed.

Lemma Deck_init_eq rng :
  (Deck.__init__ rng []).1.1 =
    (Deck.shuffle rng (Deck.mk (Deck._generate []).1 (Rect.mk 30 30 80 120))).1
  ∧ (Deck.__init__ rng []).1.2 = (Deck._generate []).2.
Proof.
  unfold Deck.__init__. destruct (Deck._generate []) as [cs hp]. simpl.
  by destruct (Deck.shuffle _ _).
Qed.

Lemma shuffle_cards rng d :
  Deck.cards (Deck.shuffle rng d).1 ≡ₚ Deck.cards d
  ∧ Deck.deck_rect (Deck.shuffle rng d).1 = Deck.deck_rect d.
Proof.
  unfold Deck.shuffle.
  pose proof (random_shuffle_Permutation rng (Deck.cards d)) as H.
  by destruct (random_shuffle rng (Deck.cards d)).
Qed.

Lemma fresh_deck_cards rng :
  Deck.cards (Deck.__init__ rng []).1.1 ≡ₚ seq 0 52
  ∧ Deck.deck_rect (Deck.__init__ rng []).1.1 = Rect.mk 30 30 80 120.
Proof.
  destruct (Deck_init_eq rng) as [-> _].
  destruct (shuffle_cards rng (Deck.mk (Deck._generate []).1 (Rect.mk 30 30 80 120)))
    as [-> ->].
  by rewrite generate_cards.
Qed.

(** C5: a freshly generated deck has exactly 52 cards, one for each pair of
    the 13 ranks and the 4 suits, so no pair occurs twice, and every card is
    created face down. *)
Theorem generate_52_unique_face_down :
  let cs := (Deck._generate []).1 in
  let hp := (Deck._generate []).2 in
  length Deck.ranks = 13 ∧ NoDup Deck.ranks
  ∧ length Deck.suits = 4 ∧ NoDup Deck.suits.*1
  ∧ length cs = 52 ∧ NoDup cs
  ∧ face hp <$> cs = prod_swap <$> list_prod Deck.suits.*1 Deck.ranks
  ∧ NoDup (face hp <$> cs)
  ∧ Forall (λ c, Card.is_flipped (hp !!! c) = false) cs.
Proof.
  split_and!; compute_done.
Qed.

(** C7: shuffling reorders the deck: the cards afterwards are a permutation
    of the cards before, with the same members and the same number of them,
    and the random generator reaches the state of the program only through
    the order [shuffle] gives the generated deck. *)
Theorem shuffle_is_permutation (rng : Rng) (d : Deck.t) :
  let d' := (Deck.shuffle rng d).1 in
  Deck.cards d' ≡ₚ Deck.cards d
  ∧ length (Deck.cards d') = length (Deck.cards d)
  ∧ (∀ c, c ∈ Deck.cards d' ↔ c ∈ Deck.cards d)
  ∧ Deck.deck_rect d' = Deck.deck_rect d
  ∧ Game.__init__ rng =
      Game.mk (Deck._generate []).2
        (Deck.shuffle rng (Deck.mk (Deck._generate []).1 (Rect.mk 30 30 80 120))).1
        [] None (0, 0)%Z.
Proof.
  destruct (shuffle_cards rng d) as [Hp Hr]. cbv zeta.
  split; [exact Hp|]. split; [by rewrite Hp|].
  split; [intros c; by rewrite Hp|]. split; [exact Hr|].
  - unfold Game.__init__.
    destruct (Deck_init_eq rng) as [<- <-].
    by destruct (Deck.__init__ rng []) as [[??]?].
Qed.

(** C6: [draw_card] on a deck that is not empty removes and returns its last
    card, leaving one card fewer; on an empty deck it returns no card,
    raises nothing and leaves the deck as it is; 52 draws from a fresh deck
    return 52 different cards and every later draw returns no card. *)
Theorem draw_card_pops_last (cs : list ref) (c : ref) (r : Rect.t) (rng : Rng) (k : nat) :
  (∃ d', Deck.draw_card (Deck.mk (cs ++ [c]) r) = Some (Some c, d')
     ∧ d' = Deck.mk cs r
     ∧ length (Deck.cards d') + 1 = length (Deck.cards (Deck.mk (cs ++ [c]) r)))
  ∧ Deck.draw_card (Deck.mk [] r) = Some (None, Deck.mk [] r)
  ∧ ∃ rs d,
      draws 52 (Deck.__init__ rng []).1.1 = Some (Some <$> rs, d)
      ∧ length rs = 52 ∧ NoDup rs
      ∧ NoDup (face (Deck.__init__ rng []).1.2 <$> rs)
      ∧ Deck.cards d = []
      ∧ draws (52 + k) (Deck.__init__ rng []).1.1
        = Some ((Some <$> rs) ++ replicate k None, d).
Proof.
  split_and!; [|done|].
  { eexists. split; [apply draw_card_snoc|]. split; [done|].
    simpl. by rewrite length_app. }
  destruct (fresh_deck_cards rng) as [Hp Hr].
  destruct (Deck.__init__ rng []).1.1 as [fresh rect] eqn:Hd.
  cbn [Deck.cards Deck.deck_rect] in Hp, Hr.
  assert (length fresh = 52) as Hlen by (rewrite Hp; apply length_seq).
  exists (reverse fresh), (Deck.mk [] rect).
  assert (draws 52 (Deck.mk fresh rect)
          = Some (Some <$> reverse fresh, Deck.mk [] rect)) as Hdraws.
  { rewrite <-Hlen. apply draws_all. }
  split; [exact Hdraws|]. split; [by rewrite length_reverse|].
  split; [rewrite reverse_Permutation, Hp; apply NoDup_seq|].
  split; [|split; [reflexivity|]].
  - destruct (Deck_init_eq rng) as [_ ->].
    rewrite fmap_reverse, reverse_Permutation, Hp.
    compute_done.
  - by rewrite draws_app, Hdraws, draws_nil.
Qed.

(** ** Hit-testing *)

Lemma first_hit_miss hp pos cs :
  Forall (λ c, ¬ contains hp pos c) cs → Game.first_hit hp pos cs = (cs, None).
Proof.
  induction 1 as [|c cs Hc _ IH]; [done|]. simpl.
  unfold contains in Hc. destruct (Rect.collidepoint _ _); [done|].
  by rewrite IH.
Qed.

Lemma first_hit_found hp pos pre c post :
  Forall (λ c, ¬ contains hp pos c) pre → contains hp pos c →
  Game.first_hit hp pos (pre ++ c :: post) = (pre ++ [c], Some c).
Proof.
  intros Hpre Hc. induction Hpre as [|d pre Hd _ IH]; simpl.
  - unfold contains in Hc. by rewrite Hc.
  - unfold contains in Hd. destruct (Rect.collidepoint _ _); [done|].
    by rewrite IH.
Qed.

(** The topmost card under the pointer is the last one on the table that
    contains it. *)
Lemma first_hit_topmost hp pos below c above :
  contains hp pos c → Forall (λ c, ¬ contains hp pos c) above →
  Game.first_hit hp pos (reverse (below ++ c :: above))
  = (reverse above ++ [c], Some c).
Proof.
  intros Hc Habove. rewrite reverse_app, reverse_cons, <-(assoc_L (++)). simpl.
  apply first_hit_found; [|done]. by apply Forall_reverse.
Qed.

(** Either no card on the table is under the pointer or there is a topmost
    one. *)
Lemma table_hit_cases hp pos (table : list ref) :
  Forall (λ c, ¬ contains hp pos c) table
  ∨ ∃ below c above, table = below ++ c :: above ∧ contains hp pos c
      ∧ Forall (λ c, ¬ contains hp pos c) above.
Proof.
  induction table as [|c table IH] using rev_ind; [by left|].
  destruct (decide (contains hp pos c)) as [Hc|Hc].
  - right. exists table, c, []. by rewrite Forall_nil.
  - destruct IH as [IH|(below & d & above & -> & Hd & Habove)].
    + left. apply Forall_app. by rewrite Forall_singleton.
    + right. exists below, d, (above ++ [c]).
      rewrite <-(assoc_L (++)). split_and!; [done..|].
      apply Forall_app. by rewrite Forall_singleton.
Qed.

Lemma list_remove_middle (below above : list ref) c :
  c ∉ below → list_remove c (below ++ c :: above) = Some (below ++ above).
Proof.
  induction below as [|d below IH]; simpl.
  - intros _. by rewrite decide_True.
  - intros [Hcd Hc]%not_elem_of_cons. rewrite decide_False by done.
    by rewrite IH.
Qed.

(** ** The heap *)

Lemma rect_alter_flip (hp : Heap) c c' :
  Card.rect (alter Card.flip c hp !!! c') = Card.rect (hp !!! c').
Proof.
  rewrite list_lookup_total_alter. case_decide as H; [|done].
  by destruct H as [-> _].
Qed.

Lemma contains_alter_flip hp pos c c' :
  contains (alter Card.flip c hp) pos c' ↔ contains hp pos c'.
Proof. unfold contains. by rewrite rect_alter_flip. Qed.

Lemma is_flipped_alter_with_rect (hp : Heap) f c c' :
  Card.is_flipped (alter (Card.with_rect f) c hp !!! c')
  = Card.is_flipped (hp !!! c').
Proof.
  rewrite list_lookup_total_alter. case_decide as H; [|done].
  by destruct H as [-> _].
Qed.

Lemma flip_flip card : Card.flip (Card.flip card) = card.
Proof. destruct card as [? ? ? b ?]. unfold Card.flip. simpl. by rewrite negb_involutive. Qed.

Lemma alter_flip_flip (hp : Heap) c :
  alter Card.flip c (alter Card.flip c hp) = hp.
Proof.
  rewrite list_alter_alter_eq. apply list_alter_id. intros card. apply flip_flip.
Qed.

Lemma alter_set_xy (hp : Heap) c vx vy :
  alter (Card.with_rect (Rect.set_y vy)) c
    (alter (Card.with_rect (Rect.set_x vx)) c hp)
  = alter (move_to (vx, vy)) c hp.
Proof. rewrite list_alter_alter_eq. by apply list_alter_ext. Qed.

Lemma alter_move_move (hp : Heap) c o1 o2 :
  alter (move_to o2) c (alter (move_to o1) c hp) = alter (move_to o2) c hp.
Proof. rewrite list_alter_alter_eq. by apply list_alter_ext. Qed.

(** ** What each handler does *)

Section handlers.
Implicit Types (g : Game.t) (pos : Pos) (c : ref).

Lemma eta g :
  Game.mk (Game.heap g) (Game.deck g) (Game.cards_on_table g)
          (Game.held_card g) (Game.drag_offset g) = g.
Proof. by destruct g. Qed.

Lemma left_click_deck g pos cs c :
  Rect.collidepoint (Deck.deck_rect (Game.deck g)) pos = true →
  Deck.cards (Game.deck g) = cs ++ [c] →
  Game.handle_mouse_down g 1 pos =
    let hp := alter (Card.with_rect (Rect.set_center pos)) c (Game.heap g) in
    Game.Out []
      (Some (Game.mk hp (Deck.mk cs (Deck.deck_rect (Game.deck g)))
               (Game.cards_on_table g ++ [c]) (Some c)
               (pos.1 - Rect.x (Card.rect (hp !!! c)),
                pos.2 - Rect.y (Card.rect (hp !!! c)))%Z)).
Proof.
  intros Hdeck Hcs. unfold Game.handle_mouse_down.
  change (1 =? 1)%Z with true. cbv iota. rewrite Hdeck.
  destruct (Game.deck g) as [cards rect]. simpl in Hcs. subst cards.
  by rewrite draw_card_snoc.
Qed.

Lemma left_click_empty_deck g pos :
  Rect.collidepoint (Deck.deck_rect (Game.deck g)) pos = true →
  Deck.cards (Game.deck g) = [] →
  Game.handle_mouse_down g 1 pos = Game.Out [] (Some g).
Proof.
  intros Hdeck Hcs. unfold Game.handle_mouse_down.
  change (1 =? 1)%Z with true. cbv iota. rewrite Hdeck.
  unfold Deck.draw_card. rewrite Hcs. by rewrite eta.
Qed.

Lemma left_click_card g pos below c above :
  Rect.collidepoint (Deck.deck_rect (Game.deck g)) pos = false →
  Game.cards_on_table g = below ++ c :: above →
  c ∉ below →
  contains (Game.heap g) pos c →
  Forall (λ c', ¬ contains (Game.heap g) pos c') above →
  Game.handle_mouse_down g 1 pos =
    Game.Out (reverse above ++ [c])
      (Some (Game.mk (Game.heap g) (Game.deck g) (below ++ above ++ [c]) (Some c)
               (pos.1 - Rect.x (Card.rect (Game.heap g !!! c)),
                pos.2 - Rect.y (Card.rect (Game.heap g !!! c)))%Z)).
Proof.
  intros Hdeck Htable Hbelow Hc Habove. unfold Game.handle_mouse_down.
  change (1 =? 1)%Z with true. cbv iota. rewrite Hdeck, Htable.
  rewrite first_hit_topmost by done.
  rewrite list_remove_middle by done.
  unfold Game.right_click. change (1 =? 3)%Z with false. cbv iota.
  by rewrite <-(assoc_L (++)).
Qed.

Lemma left_click_nothing g pos :
  Rect.collidepoint (Deck.deck_rect (Game.deck g)) pos = false →
  Forall (λ c, ¬ contains (Game.heap g) pos c) (Game.cards_on_table g) →
  Game.handle_mouse_down g 1 pos =
    Game.Out (reverse (Game.cards_on_table g)) (Some g).
Proof.
  intros Hdeck Hmiss. unfold Game.handle_mouse_down.
  change (1 =? 1)%Z with true. cbv iota. rewrite Hdeck.
  rewrite first_hit_miss by by apply Forall_reverse.
  unfold Game.right_click. by change (1 =? 3)%Z with false.
Qed.

Lemma right_click_card g pos below c above :
  Game.cards_on_table g = below ++ c :: above →
  contains (Game.heap g) pos c →
  Forall (λ c', ¬ contains (Game.heap g) pos c') above →
  Game.handle_mouse_down g 3 pos =
    Game.Out (reverse above ++ [c])
      (Some (Game.mk (alter Card.flip c (Game.heap g)) (Game.deck g)
               (Game.cards_on_table g) (Game.held_card g) (Game.drag_offset g))).
Proof.
  intros Htable Hc Habove. unfold Game.handle_mouse_down, Game.right_click.
  change (3 =? 1)%Z with false. change (3 =? 3)%Z with true. cbv iota.
  rewrite Htable at 1. by rewrite first_hit_topmost.
Qed.

Lemma right_click_nothing g pos :
  Forall (λ c, ¬ contains (Game.heap g) pos c) (Game.cards_on_table g) →
  Game.handle_mouse_down g 3 pos =
    Game.Out (reverse (Game.cards_on_table g)) (Some g).
Proof.
  intros Hmiss. unfold Game.handle_mouse_down, Game.right_click.
  change (3 =? 1)%Z with false. change (3 =? 3)%Z with true. cbv iota.
  by rewrite first_hit_miss by by apply Forall_reverse.
Qed.

Lemma other_button_down g button pos :
  button ≠ 1%Z → button ≠ 3%Z →
  Game.handle_mouse_down g button pos = Game.Out [] (Some g).
Proof.
  intros H1 H3. unfold Game.handle_mouse_down, Game.right_click.
  destruct (Z.eqb_spec button 1); [done|].
  by destruct (Z.eqb_spec button 3).
Qed.

Lemma motion_held g pos c :
  Game.held_card g = Some c →
  Game.handle_mouse_motion g pos =
    Game.mk
      (alter (move_to (pos.1 - (Game.drag_offset g).1,
                       pos.2 - (Game.drag_offset g).2)%Z) c (Game.heap g))
      (Game.deck g) (Game.cards_on_table g) (Some c) (Game.drag_offset g).
Proof.
  intros Hheld. unfold Game.handle_mouse_motion. rewrite Hheld.
  by rewrite alter_set_xy.
Qed.

Lemma motion_idle g pos :
  Game.held_card g = None → Game.handle_mouse_motion g pos = g.
Proof. intros Hheld. unfold Game.handle_mouse_motion. by rewrite Hheld. Qed.

End handlers.

(** ** Well-formed states *)

Section wf.
Implicit Types (g : Game.t) (pos : Pos) (c : ref).

Lemma list_nil_or_snoc {A} (l : list A) : l = [] ∨ ∃ l' x, l = l' ++ [x].
Proof. destruct l as [|x l] using rev_ind; [by left|right; eauto]. Qed.

Lemma wf_init rng : Game.wf (Game.__init__ rng).
Proof.
  unfold Game.__init__.
  destruct (fresh_deck_cards rng) as [Hp _].
  destruct (Deck_init_eq rng) as [_ Hhp].
  destruct (Deck.__init__ rng []) as [[d hp] rng'].
  cbn [fst snd] in Hp, Hhp. subst hp.
  unfold Game.wf. cbn [Game.deck Game.cards_on_table Game.heap Game.held_card].
  rewrite app_nil_r, Hp, generate_heap_length.
  split_and!; [apply NoDup_seq| |done|].
  - apply Forall_forall. intros c Hc%elem_of_seq. lia.
  - compute_done.
Qed.

(** Moving rectangles and flipping cards that are not in the deck keep a
    state well formed. *)
Lemma wf_heap g hp off :
  Game.wf g → length hp = length (Game.heap g) →
  (∀ c, c ∈ Deck.cards (Game.deck g) →
        Card.is_flipped (hp !!! c) = Card.is_flipped (Game.heap g !!! c)) →
  Game.wf (Game.mk hp (Game.deck g) (Game.cards_on_table g) (Game.held_card g) off).
Proof.
  intros (Hnd & Hlt & Hheld & Hdown) Hlen Hflags. unfold Game.wf. simpl.
  rewrite Hlen. split_and!; [done..|].
  apply Forall_forall. intros c Hc. rewrite Hflags by done.
  by eapply Forall_forall in Hdown.
Qed.

Lemma wf_draw g cs c f off :
  Game.wf g → Deck.cards (Game.deck g) = cs ++ [c] →
  Game.wf (Game.mk (alter (Card.with_rect f) c (Game.heap g))
             (Deck.mk cs (Deck.deck_rect (Game.deck g)))
             (Game.cards_on_table g ++ [c]) (Some c) off).
Proof.
  intros (Hnd & Hlt & Hheld & Hdown) Hcs. rewrite Hcs in Hnd, Hlt, Hdown.
  unfold Game.wf. simpl. rewrite length_alter.
  assert (cs ++ Game.cards_on_table g ++ [c]
          ≡ₚ (cs ++ [c]) ++ Game.cards_on_table g) as Hperm by solve_Permutation.
  rewrite Hperm. split_and!; [done..| |].
  - apply elem_of_app. right. by apply list_elem_of_singleton.
  - apply Forall_app in Hdown as [Hdown _].
    eapply Forall_impl; [exact Hdown|]. intros c' Hc'. simpl in *.
    by rewrite is_flipped_alter_with_rect.
Qed.

Lemma wf_pick g below c above off :
  Game.wf g → Game.cards_on_table g = below ++ c :: above →
  Game.wf (Game.mk (Game.heap g) (Game.deck g) (below ++ above ++ [c]) (Some c) off).
Proof.
  intros (Hnd & Hlt & Hheld & Hdown) Htable. rewrite Htable in Hnd, Hlt.
  unfold Game.wf. simpl.
  assert (below ++ above ++ [c] ≡ₚ below ++ c :: above) as Hperm
    by solve_Permutation.
  rewrite Hperm. split_and!; [done..| |done].
  rewrite ?elem_of_app, ?elem_of_cons. auto.
Qed.

Lemma wf_flip g c :
  Game.wf g → c ∈ Game.cards_on_table g →
  Game.wf (Game.mk (alter Card.flip c (Game.heap g)) (Game.deck g)
             (Game.cards_on_table g) (Game.held_card g) (Game.drag_offset g)).
Proof.
  intros Hwf Hc. apply wf_heap; [done|by rewrite length_alter|].
  intros d Hd. rewrite list_lookup_total_alter_ne; [done|].
  intros ->. destruct Hwf as (Hnd & _).
  apply NoDup_app in Hnd as (_ & Hdisj & _). by apply (Hdisj d).
Qed.

Lemma wf_not_below g below c above :
  Game.wf g → Game.cards_on_table g = below ++ c :: above → c ∉ below.
Proof.
  intros (Hnd & _) Htable. rewrite Htable in Hnd.
  apply NoDup_app in Hnd as (_ & _ & Hnd).
  apply NoDup_app in Hnd as (_ & Hdisj & _).
  intros Hc. apply (Hdisj c Hc). by left.
Qed.

(** [handle_mouse_down] raises nothing and keeps the state well formed. *)
Lemma wf_mouse_down g button pos :
  Game.wf g →
  ∃ g', Game.result (Game.handle_mouse_down g button pos) = Some g' ∧ Game.wf g'.
Proof.
  intros Hwf.
  destruct (decide (button = 1%Z)) as [->|H1].
  - destruct (Rect.collidepoint (Deck.deck_rect (Game.deck g)) pos) eqn:Hdeck.
    + destruct (list_nil_or_snoc (Deck.cards (Game.deck g))) as [Hcs|(cs & c & Hcs)].
      * rewrite left_click_empty_deck by done. eauto.
      * rewrite (left_click_deck g pos cs c) by done.
        eexists; split; [done|]. by apply wf_draw.
    + destruct (table_hit_cases (Game.heap g) pos (Game.cards_on_table g))
        as [Hmiss|(below & c & above & Htable & Hc & Habove)].
      * rewrite left_click_nothing by done. eauto.
      * rewrite (left_click_card g pos below c above)
          by eauto using wf_not_below.
        eexists; split; [done|]. by apply wf_pick.
  - destruct (decide (button = 3%Z)) as [->|H3].
    + destruct (table_hit_cases (Game.heap g) pos (Game.cards_on_table g))
        as [Hmiss|(below & c & above & Htable & Hc & Habove)].
      * rewrite right_click_nothing by done. eauto.
      * rewrite (right_click_card g pos below c above) by done.
        eexists; split; [done|]. apply wf_flip; [done|].
        rewrite Htable, elem_of_app, elem_of_cons. auto.
    + rewrite other_button_down by done. eauto.
Qed.

Lemma wf_mouse_up g button : Game.wf g → Game.wf (Game.handle_mouse_up g button).
Proof.
  intros Hwf. unfold Game.handle_mouse_up. destruct (button =? 1)%Z; [|done].
  destruct Hwf as (? & ? & ? & ?). by unfold Game.wf.
Qed.

Lemma wf_mouse_motion g pos : Game.wf g → Game.wf (Game.handle_mouse_motion g pos).
Proof.
  intros Hwf. destruct (Game.held_card g) as [c|] eqn:Hheld.
  - rewrite (motion_held g pos c) by done. rewrite <-Hheld.
    apply wf_heap; [done|by rewrite length_alter|].
    intros d _. apply is_flipped_alter_with_rect.
  - by rewrite motion_idle.
Qed.

Lemma wf_dispatch g ev :
  Game.wf g → ∃ g', Game.dispatch g ev = Some g' ∧ Game.wf g'.
Proof.
  intros Hwf. destruct ev as [|button pos|button pos|pos|]; simpl; eauto.
  - by apply wf_mouse_down.
  - eauto using wf_mouse_up.
  - eauto using wf_mouse_motion.
Qed.

Lemma wf_handle_events g evs :
  Game.wf g → ∃ g', Game.handle_events g evs = Some g' ∧ Game.wf g'.
Proof.
  revert g. induction evs as [|ev evs IH]; intros g Hwf; simpl; [eauto|].
  destruct (wf_dispatch g ev Hwf) as (g1 & -> & Hwf1). by apply IH.
Qed.

Lemma wf_run g batches :
  Game.wf g → ∃ g' frames, Game.run g batches = Some (g', frames) ∧ Game.wf g'.
Proof.
  revert g. induction batches as [|evs batches IH]; intros g Hwf; simpl; [eauto|].
  destruct (wf_handle_events g evs Hwf) as (g1 & -> & Hwf1).
  destruct (existsb Game.is_QUIT evs); [eauto|].
  destruct (IH g1 Hwf1) as (g2 & frames & -> & Hwf2). eauto.
Qed.

(** Every state the program reaches is well formed. *)
Lemma reachable_wf rng evs g :
  Game.handle_events (Game.__init__ rng) evs = Some g → Game.wf g.
Proof.
  intros Hg. destruct (wf_handle_events _ evs (wf_init rng)) as (g' & Hg' & Hwf).
  congruence.
Qed.

End wf.

Lemma wf_lt_deck g c :
  Game.wf g → c ∈ Deck.cards (Game.deck g) → c < length (Game.heap g).
Proof.
  intros (_ & Hlt & _) Hc. apply Forall_app in Hlt as [Hlt _].
  by eapply Forall_forall in Hlt.
Qed.

Lemma wf_lt_table g c :
  Game.wf g → c ∈ Game.cards_on_table g → c < length (Game.heap g).
Proof.
  intros (_ & Hlt & _) Hc. apply Forall_app in Hlt as [_ Hlt].
  by eapply Forall_forall in Hlt.
Qed.

Lemma center_set_center pos r : Rect.center (Rect.set_center pos r) = pos.
Proof.
  destruct pos as [px py]. unfold Rect.center, Rect.set_center. simpl.
  f_equal; lia.
Qed.

(** ** Pressing the primary button *)

(** C1: a primary-button press inside the deck rectangle tests no card on
    the table; when the deck is not empty its last card is popped, centred
    on the press point, appended to the table and held, with the press point
    minus its new origin as drag offset, it stays face down and the deck has
    one card fewer; when the deck is empty the state is unchanged. *)
Theorem deck_click_draws (g : Game.t) (pos : Pos) :
  Game.wf g →
  Rect.collidepoint (Deck.deck_rect (Game.deck g)) pos = true →
  let out := Game.handle_mouse_down g 1 pos in
  Game.probed out = []
  ∧ (Deck.cards (Game.deck g) = [] → Game.result out = Some g)
  ∧ (∀ cs c, Deck.cards (Game.deck g) = cs ++ [c] →
      ∃ g', Game.result out = Some g'
        ∧ Game.deck g' = Deck.mk cs (Deck.deck_rect (Game.deck g))
        ∧ length (Deck.cards (Game.deck g')) + 1
          = length (Deck.cards (Game.deck g))
        ∧ Game.cards_on_table g' = Game.cards_on_table g ++ [c]
        ∧ Game.held_card g' = Some c
        ∧ Game.heap g'
          = alter (Card.with_rect (Rect.set_center pos)) c (Game.heap g)
        ∧ Rect.center (Card.rect (Game.heap g' !!! c)) = pos
        ∧ Game.drag_offset g'
          = (pos.1 - Rect.x (Card.rect (Game.heap g' !!! c)),
             pos.2 - Rect.y (Card.rect (Game.heap g' !!! c)))%Z
        ∧ Card.is_flipped (Game.heap g' !!! c) = false
        ∧ ∀ c', c' ≠ c → Game.heap g' !!! c' = Game.heap g !!! c').
Proof.
  intros Hwf Hdeck out. subst out. split_and!.
  - destruct (list_nil_or_snoc (Deck.cards (Game.deck g))) as [Hcs|(cs & c & Hcs)].
    + by rewrite left_click_empty_deck.
    + by rewrite (left_click_deck g pos cs c).
  - intros Hcs. by rewrite left_click_empty_deck.
  - intros cs c Hcs. rewrite (left_click_deck g pos cs c) by done.
    assert (c < length (Game.heap g)) as Hc.
    { apply wf_lt_deck; [done|]. rewrite Hcs, elem_of_app, list_elem_of_singleton. auto. }
    eexists. split; [done|]. cbn -[alter].
    split_and!; try done.
    + rewrite Hcs, length_app. done.
    + rewrite list_lookup_total_alter_eq by done. apply center_set_center.
    + rewrite is_flipped_alter_with_rect.
      destruct Hwf as (_ & _ & _ & Hdown). rewrite Hcs in Hdown.
      apply Forall_app in Hdown as [_ Hdown].
      rewrite Forall_singleton in Hdown. exact Hdown.
    + intros c' Hc'. by rewrite list_lookup_total_alter_ne.
Qed.

(** C2: a primary-button press outside the deck rectangle tests the cards
    on the table from the last to the first; the first one that contains
    the press point is moved to the end of the table, becomes the held card
    and the press point minus its origin is recorded, while the other cards
    keep their order; when no card contains the point the state is
    unchanged. *)
Theorem table_click_promotes_topmost (g : Game.t) (pos : Pos) :
  Game.wf g →
  Rect.collidepoint (Deck.deck_rect (Game.deck g)) pos = false →
  let out := Game.handle_mouse_down g 1 pos in
  (Forall (λ c, ¬ contains (Game.heap g) pos c) (Game.cards_on_table g) →
     Game.probed out = reverse (Game.cards_on_table g)
     ∧ Game.result out = Some g)
  ∧ (∀ below c above,
       Game.cards_on_table g = below ++ c :: above →
       contains (Game.heap g) pos c →
       Forall (λ c', ¬ contains (Game.heap g) pos c') above →
       Game.probed out = reverse above ++ [c]
       ∧ Game.result out =
           Some (Game.mk (Game.heap g) (Game.deck g) (below ++ above ++ [c])
                   (Some c)
                   (pos.1 - Rect.x (Card.rect (Game.heap g !!! c)),
                    pos.2 - Rect.y (Card.rect (Game.heap g !!! c)))%Z)
       ∧ below ++ above = filter (λ c', c' ≠ c) (Game.cards_on_table g)).
Proof.
  intros Hwf Hdeck out. subst out. split.
  - intros Hmiss. by rewrite left_click_nothing.
  - intros below c above Htable Hc Habove.
    pose proof (wf_not_below g below c above Hwf Htable) as Hbelow.
    rewrite (left_click_card g pos below c above) by done.
    split_and!; [done..|].
    destruct Hwf as (Hnd & _). apply NoDup_app in Hnd as (_ & _ & Hnd).
    pose proof (list_remove_NoDup c _ Hnd) as Hrm.
    rewrite Htable in Hrm at 1 2. rewrite list_remove_middle in Hrm by done.
    rewrite elem_of_app, elem_of_cons in Hrm.
    assert (Some (below ++ above)
            = Some (filter (λ y, y ≠ c) (Game.cards_on_table g))) as Heq
      by auto.
    by injection Heq.
Qed.

(** ** Dragging *)

Lemma handle_events_app g evs1 evs2 :
  Game.handle_events g (evs1 ++ evs2) = Game.handle_events g evs1 ≫= λ g', Game.handle_events g' evs2.
Proof.
  revert g. induction evs1 as [|ev evs1 IH]; intros g; [done|]. simpl.
  destruct (Game.dispatch g ev); [apply IH|done].
Qed.

Lemma motion_motion g p1 p2 :
  Game.handle_mouse_motion (Game.handle_mouse_motion g p1) p2
  = Game.handle_mouse_motion g p2.
Proof.
  destruct (Game.held_card g) as [c|] eqn:Hheld.
  - rewrite (motion_held g p1 c) by done.
    rewrite (motion_held _ p2 c) by done.
    rewrite (motion_held g p2 c) by done. simpl.
    by rewrite alter_move_move.
  - by rewrite !motion_idle by (by rewrite ?motion_idle).
Qed.

(** After any pointer moves only the last position counts. *)
Lemma handle_motions g ms p :
  Game.handle_events g (MOUSEMOTION <$> (ms ++ [p])) = Some (Game.handle_mouse_motion g p).
Proof.
  revert g. induction ms as [|m ms IH]; intros g; [done|]. simpl.
  rewrite IH. by rewrite motion_motion.
Qed.

Lemma handle_drag g p ms p' q g1 :
  Game.result (Game.handle_mouse_down g 1 p) = Some g1 →
  Game.handle_events g (drag_events p ms p' q)
  = Some (Game.handle_mouse_up (Game.handle_mouse_motion g1 p') 1).
Proof.
  intros Hdown.
  assert (drag_events p ms p' q
          = MOUSEBUTTONDOWN 1 p
            :: (MOUSEMOTION <$> (ms ++ [p'])) ++ [MOUSEBUTTONUP 1 q]) as ->.
  { unfold drag_events. by rewrite fmap_app, <-(assoc_L (++)). }
  simpl. rewrite Hdown. by rewrite handle_events_app, handle_motions.
Qed.

(** C3: while a card is held a pointer move puts the origin of exactly that
    card at the pointer position minus the drag offset and changes nothing
    else; a primary-button release then clears the held card and leaves the
    card where it is; so a press on a card followed by pointer moves that
    end [d] away from the press point and a release moves the origin of
    that card by exactly [d] and no other card. *)
Theorem drag_moves_only_held (g : Game.t) (c : ref) :
  Game.wf g →
  (∀ pos, Game.held_card g = Some c →
     let g' := Game.handle_mouse_motion g pos in
     Rect.topleft (Card.rect (Game.heap g' !!! c))
       = (pos.1 - (Game.drag_offset g).1, pos.2 - (Game.drag_offset g).2)%Z
     ∧ Game.heap g'
       = alter (move_to (pos.1 - (Game.drag_offset g).1,
                         pos.2 - (Game.drag_offset g).2)%Z) c (Game.heap g)
     ∧ Rect.w (Card.rect (Game.heap g' !!! c)) = Rect.w (Card.rect (Game.heap g !!! c))
     ∧ Rect.h (Card.rect (Game.heap g' !!! c)) = Rect.h (Card.rect (Game.heap g !!! c))
     ∧ (∀ c', c' ≠ c → Game.heap g' !!! c' = Game.heap g !!! c')
     ∧ (∀ c', Card.is_flipped (Game.heap g' !!! c')
              = Card.is_flipped (Game.heap g !!! c'))
     ∧ Game.deck g' = Game.deck g
     ∧ Game.cards_on_table g' = Game.cards_on_table g
     ∧ Game.held_card g' = Some c
     ∧ Game.drag_offset g' = Game.drag_offset g
     ∧ Game.handle_mouse_up g' 1
       = Game.mk (Game.heap g') (Game.deck g) (Game.cards_on_table g) None
           (Game.drag_offset g))
  ∧ (∀ p d ms q below above,
       Rect.collidepoint (Deck.deck_rect (Game.deck g)) p = false →
       Game.cards_on_table g = below ++ c :: above →
       contains (Game.heap g) p c →
       Forall (λ c', ¬ contains (Game.heap g) p c') above →
       ∃ g3, Game.handle_events g (drag_events p ms (p.1 + d.1, p.2 + d.2)%Z q) = Some g3
         ∧ Rect.x (Card.rect (Game.heap g3 !!! c))
           = (Rect.x (Card.rect (Game.heap g !!! c)) + d.1)%Z
         ∧ Rect.y (Card.rect (Game.heap g3 !!! c))
           = (Rect.y (Card.rect (Game.heap g !!! c)) + d.2)%Z
         ∧ (∀ c', c' ≠ c → Game.heap g3 !!! c' = Game.heap g !!! c')
         ∧ Game.cards_on_table g3 = below ++ above ++ [c]
         ∧ Game.held_card g3 = None).
Proof.
  intros Hwf. split.
  - intros pos Hheld g'. subst g'.
    assert (c < length (Game.heap g)) as Hc.
    { apply wf_lt_table; [done|]. destruct Hwf as (_ & _ & Hin & _).
      by rewrite Hheld in Hin. }
    rewrite (motion_held g pos c) by done. cbn -[alter].
    rewrite list_lookup_total_alter_eq by done.
    split_and!; try done.
    + intros c' Hc'. by rewrite list_lookup_total_alter_ne.
    + intros c'. apply is_flipped_alter_with_rect.
  - intros p d ms q below above Hdeck Htable Hc Habove.
    pose proof (wf_not_below g below c above Hwf Htable) as Hbelow.
    assert (c < length (Game.heap g)) as Hlt.
    { apply wf_lt_table; [done|]. rewrite Htable, elem_of_app, elem_of_cons. auto. }
    eexists. split.
    { apply handle_drag. by rewrite (left_click_card g p below c above). }
    rewrite (motion_held _ _ c) by done. cbn -[alter].
    rewrite list_lookup_total_alter_eq by done. cbn.
    split_and!; [lia|lia| |done..].
    intros c' Hc'. by rewrite list_lookup_total_alter_ne.
Qed.

(** ** Flipping *)

(** C4: a secondary-button press tests the cards on the table from the
    last to the first and flips only the first one that contains the press
    point; a second such press restores the state; a flip changes no
    rectangle, not the order of the table, not the held card and no other
    card. *)
Theorem right_click_flips_topmost (g : Game.t) (pos : Pos) :
  Game.wf g →
  let out := Game.handle_mouse_down g 3 pos in
  (Forall (λ c, ¬ contains (Game.heap g) pos c) (Game.cards_on_table g) →
     Game.probed out = reverse (Game.cards_on_table g)
     ∧ Game.result out = Some g)
  ∧ (∀ below c above,
       Game.cards_on_table g = below ++ c :: above →
       contains (Game.heap g) pos c →
       Forall (λ c', ¬ contains (Game.heap g) pos c') above →
       ∃ g', Game.result out = Some g'
         ∧ Game.probed out = reverse above ++ [c]
         ∧ Game.heap g' = alter Card.flip c (Game.heap g)
         ∧ Card.is_flipped (Game.heap g' !!! c)
           = negb (Card.is_flipped (Game.heap g !!! c))
         ∧ (∀ c', c' ≠ c → Game.heap g' !!! c' = Game.heap g !!! c')
         ∧ (∀ c', Card.rect (Game.heap g' !!! c') = Card.rect (Game.heap g !!! c'))
         ∧ Game.deck g' = Game.deck g
         ∧ Game.cards_on_table g' = Game.cards_on_table g
         ∧ Game.held_card g' = Game.held_card g
         ∧ Game.drag_offset g' = Game.drag_offset g
         ∧ Game.result (Game.handle_mouse_down g' 3 pos) = Some g)
  ∧ (∀ card, Card.flip (Card.flip card) = card
       ∧ Card.is_flipped (Card.flip card) = negb (Card.is_flipped card)
       ∧ Card.rect (Card.flip card) = Card.rect card).
Proof.
  intros Hwf out. subst out. split_and!.
  - intros Hmiss. by rewrite right_click_nothing.
  - intros below c above Htable Hc Habove.
    assert (c < length (Game.heap g)) as Hlt.
    { apply wf_lt_table; [done|]. rewrite Htable, elem_of_app, elem_of_cons. auto. }
    rewrite (right_click_card g pos below c above) by done.
    eexists. split; [done|]. cbn -[alter Game.handle_mouse_down].
    split_and!; try done.
    + by rewrite list_lookup_total_alter_eq.
    + intros c' Hc'. by rewrite list_lookup_total_alter_ne.
    + intros c'. apply rect_alter_flip.
    + rewrite (right_click_card _ pos below c above); cbn -[alter].
      * by rewrite alter_flip_flip, eta.
      * done.
      * by apply contains_alter_flip.
      * eapply Forall_impl; [exact Habove|]. intros c' Hc'.
        by rewrite contains_alter_flip.
  - intros card. by rewrite flip_flip.
Qed.

(** ** The session *)

(** C8: after any sequence of events from the initial state, and at the end
    of any run of the main loop, the handlers have raised nothing and the
    held card, when there is one, is on the table. *)
Theorem held_card_on_table (rng : Rng) (evs : list Event) (batches : list (list Event)) :
  (∃ g, Game.handle_events (Game.__init__ rng) evs = Some g
     ∧ ∀ c, Game.held_card g = Some c → c ∈ Game.cards_on_table g)
  ∧ (∃ g frames, Game.run (Game.__init__ rng) batches = Some (g, frames)
     ∧ ∀ c, Game.held_card g = Some c → c ∈ Game.cards_on_table g).
Proof.
  assert (∀ g, Game.wf g →
               ∀ c, Game.held_card g = Some c → c ∈ Game.cards_on_table g) as Hheld.
  { intros g (_ & _ & Hin & _) c Hc. by rewrite Hc in Hin. }
  split.
  - destruct (wf_handle_events (Game.__init__ rng) evs (wf_init rng))
      as (g & Hg & Hwf).
    exists g. auto.
  - destruct (wf_run (Game.__init__ rng) batches (wf_init rng))
      as (g & frames & Hg & Hwf).
    exists g, frames. auto.
Qed.

(** C10: releasing a button other than the primary one changes nothing,
    so a held card stays held; releasing the primary button clears the held
    card and nothing else. *)
Theorem other_button_up_noop (g : Game.t) (button : Z) (pos : Pos) :
  button ≠ 1%Z →
  Game.handle_mouse_up g button = g
  ∧ Game.dispatch g (MOUSEBUTTONUP button pos) = Some g
  ∧ Game.handle_mouse_up g 1
    = Game.mk (Game.heap g) (Game.deck g) (Game.cards_on_table g) None
        (Game.drag_offset g)
  ∧ (∀ b, is_Some (Game.held_card g) →
          Game.held_card (Game.handle_mouse_up g b) = None ↔ b = 1%Z).
Proof.
  intros Hb.
  assert (Game.handle_mouse_up g button = g) as Hup.
  { unfold Game.handle_mouse_up. by destruct (Z.eqb_spec button 1). }
  split_and!; [done|by simpl; rewrite Hup|done|].
  intros b [c Hc]. unfold Game.handle_mouse_up.
  destruct (Z.eqb_spec b 1) as [->|Hne]; [done|].
  rewrite Hc. split; [done|]. intros. by destruct Hne.
Qed.

(** ** Rendering the deck *)

Lemma first_last_cases {A} (l : list A) :
  2 ≤ length l → ∃ x l' y, l = x :: l' ++ [y].
Proof.
  intros Hlen. destruct l as [|x l]; [simpl in Hlen; lia|].
  destruct (list_nil_or_snoc l) as [->|(l' & y & ->)]; [simpl in Hlen; lia|].
  eauto.
Qed.

(** Which surface object [Deck.draw] copies from: for a fresh deck it is
    the back image of [cards[0]], the first card of the list, while the next
    [draw_card] returns the last card, a different object; the two back
    images show the same picture.  Under the generator that always answers 0
    the deck is cards 1 to 51 followed by card 0: the surface read is that
    of card 1 and the card drawn next is card 0. *)
Theorem deck_draw_blits_first_card (rng : Rng) (r : Rect.t) :
  let d := (Deck.__init__ rng []).1.1 in
  let hp := (Deck.__init__ rng []).1.2 in
  (∃ c0 cs c,
     Deck.cards d = c0 :: cs ++ [c] ∧ c0 ≠ c
     ∧ Deck.draw d = [Blit (back_image_of c0) (Deck.deck_rect d)]
     ∧ Deck.draw_card d = Some (Some c, Deck.mk (c0 :: cs) (Deck.deck_rect d))
     ∧ Deck.draw d ≠ [Blit (back_image_of c) (Deck.deck_rect d)]
     ∧ pixels hp (back_image_of c0) = pixels hp (back_image_of c))
  ∧ Deck.draw (Deck.mk [] r) = [DrawRect COLOR_GREY r 2 CARD_CORNER_RADIUS]
  ∧ (let d0 := Game.deck (Game.__init__ []) in
     let hp0 := Game.heap (Game.__init__ []) in
     Deck.cards d0 = seq 1 51 ++ [0]
     ∧ Deck.draw d0 = [Blit (back_image_of 1) (Rect.mk 30 30 80 120)]
     ∧ Deck.draw_card d0
       = Some (Some 0, Deck.mk (seq 1 51) (Rect.mk 30 30 80 120))
     ∧ face hp0 1 = ("2", "♠") ∧ face hp0 0 = ("A", "♠")).
Proof.
  split; [|split; [done|cbv zeta; split_and!; by_eval]].
  destruct (fresh_deck_cards rng) as [Hp _].
  destruct (Deck.__init__ rng []).1.1 as [cards rect].
  cbn [Deck.cards Deck.deck_rect] in *.
  destruct (first_last_cases cards) as (c0 & cs & c & ->).
  { rewrite Hp, length_seq. lia. }
  assert (c0 ≠ c) as Hne.
  { assert (NoDup (c0 :: cs ++ [c])) as Hnd by (rewrite Hp; apply NoDup_seq).
    apply NoDup_cons in Hnd as [Hnotin _]. intros ->. apply Hnotin.
    rewrite elem_of_app, list_elem_of_singleton. auto. }
  exists c0, cs, c. split_and!; [done..| | |done].
  - apply (draw_card_snoc (c0 :: cs) c rect).
  - unfold Deck.draw. simpl. congruence.
Qed.



(** ** The properties on example sessions *)

(** A press at (50, 50), inside the deck rectangle, in the initial state:
    one card on the table, face down, centred on the press point and held,
    and 51 cards left in the deck. *)
Lemma deck_click_draws_witness :
  ∃ g', Game.result (Game.handle_mouse_down (session []) 1 (50, 50)%Z) = Some g'
    ∧ length (Deck.cards (Game.deck g')) = 51
    ∧ Game.cards_on_table g' = [0]
    ∧ Game.held_card g' = Some 0
    ∧ Rect.center (Card.rect (Game.heap g' !!! 0)) = (50, 50)%Z
    ∧ Card.is_flipped (Game.heap g' !!! 0) = false.
Proof.
  assert (Game.wf (session [])) as Hwf by by_eval.
  assert (Rect.collidepoint (Deck.deck_rect (Game.deck (session []))) (50, 50)%Z
          = true) as Hdeck by by_eval.
  destruct (deck_click_draws _ _ Hwf Hdeck) as (_ & _ & H).
  destruct (H (seq 1 51) 0) as
    (g' & Hres & Hd & _ & Htable & Hheld & _ & Hcenter & _ & Hflip & _);
    [by_eval|].
  exists g'. split; [exact Hres|]. split; [rewrite Hd; reflexivity|].
  split; [vm_cast_no_check Htable|].
  split; [exact Hheld|]. split; [exact Hcenter|exact Hflip].
Defined.

(** With cards 0 and 51 on the table, 51 on top, a press at (265, 245) is
    over card 0 only: card 51 is tested first, card 0 is picked up and
    moved behind it in the list. *)
Lemma table_click_promotes_topmost_witness :
  Game.probed (Game.handle_mouse_down (session draw_two) 1 (265, 245)%Z) = [51; 0]
  ∧ Game.result (Game.handle_mouse_down (session draw_two) 1 (265, 245)%Z)
    = Some (Game.mk (Game.heap (session draw_two)) (Game.deck (session draw_two))
              [51; 0] (Some 0) (5, 5)%Z).
Proof.
  assert (Game.wf (session draw_two)) as Hwf by by_eval.
  assert (Rect.collidepoint (Deck.deck_rect (Game.deck (session draw_two)))
            (265, 245)%Z = false) as Hdeck by by_eval.
  destruct (table_click_promotes_topmost _ _ Hwf Hdeck) as [_ H].
  destruct (H [] 0 [51]) as (Hp & Hr & _); [by_eval..|].
  split; [exact Hp|vm_cast_no_check Hr].
Defined.

(** Card 0, below card 51, is pressed at (265, 245) and dragged to
    (365, 295): its origin goes from (260, 240) to (360, 290), card 51 stays
    at (280, 270), and card 0 is now the last card of the table. *)
Lemma drag_moves_only_held_witness :
  ∃ g3,
    Game.handle_events (session draw_two)
      (drag_events (265, 245)%Z [(270, 250)%Z] (365, 295)%Z (365, 295)%Z)
    = Some g3
    ∧ Rect.x (Card.rect (Game.heap g3 !!! 0)) = 360%Z
    ∧ Rect.y (Card.rect (Game.heap g3 !!! 0)) = 290%Z
    ∧ Card.rect (Game.heap g3 !!! 51) = Rect.mk 280 270 80 120
    ∧ Game.cards_on_table g3 = [51; 0]
    ∧ Game.held_card g3 = None.
Proof.
  assert (Game.wf (session draw_two)) as Hwf by by_eval.
  destruct (drag_moves_only_held _ 0 Hwf) as [_ H].
  destruct (H (265, 245)%Z (100, 50)%Z [(270, 250)%Z] (365, 295)%Z [] [51])
    as (g3 & Hrun & Hx & Hy & Hother & Htable & Hheld); [by_eval..|].
  assert (Card.rect (Game.heap (session draw_two) !!! 51)
          = Rect.mk 280 270 80 120) as H51 by by_eval.
  exists g3. split; [vm_cast_no_check Hrun|].
  split; [vm_cast_no_check Hx|]. split; [vm_cast_no_check Hy|].
  split; [|split; [exact Htable|exact Hheld]].
  rewrite (Hother 51) by discriminate. exact H51.
Defined.

(** A secondary-button press at (300, 300), where both cards lie, turns
    card 51, the upper one, face up and leaves card 0 face down; a second
    press restores the state. *)
Lemma right_click_flips_topmost_witness :
  ∃ g',
    Game.result (Game.handle_mouse_down (session draw_two) 3 (300, 300)%Z) = Some g'
    ∧ Game.probed (Game.handle_mouse_down (session draw_two) 3 (300, 300)%Z) = [51]
    ∧ Card.is_flipped (Game.heap g' !!! 51) = true
    ∧ Card.is_flipped (Game.heap g' !!! 0) = false
    ∧ Game.cards_on_table g' = [0; 51]
    ∧ Game.result (Game.handle_mouse_down g' 3 (300, 300)%Z)
      = Some (session draw_two).
Proof.
  assert (Game.wf (session draw_two)) as Hwf by by_eval.
  destruct (right_click_flips_topmost _ (300, 300)%Z Hwf) as (_ & H & _).
  destruct (H [0] 51 []) as
    (g' & Hres & Hp & _ & Hflip & Hother & _ & _ & Htable & _ & _ & Hagain);
    [by_eval..|].
  assert (Card.is_flipped (Game.heap (session draw_two) !!! 0) = false)
    as H0 by by_eval.
  exists g'. split; [exact Hres|]. split; [exact Hp|].
  split; [vm_cast_no_check Hflip|].
  split; [|split; [vm_cast_no_check Htable|exact Hagain]].
  rewrite (Hother 0) by discriminate. exact H0.
Defined.

(** With card 0 held, releasing button 3 leaves it held. *)
Lemma other_button_up_noop_witness :
  Game.handle_mouse_up (session [MOUSEBUTTONDOWN 1 (50, 50)%Z]) 3
  = session [MOUSEBUTTONDOWN 1 (50, 50)%Z]
  ∧ Game.held_card (session [MOUSEBUTTONDOWN 1 (50, 50)%Z]) = Some 0.
Proof.
  destruct (other_button_up_noop (session [MOUSEBUTTONDOWN 1 (50, 50)%Z]) 3
              (0, 0)%Z) as (Hup & _); [discriminate|].
  split; [exact Hup|by_eval].
Defined.

(** * Further properties of the session *)

(** ** Every event makes one of six changes *)

Section changes.
Implicit Types (g : Game.t) (pos : Pos) (c : ref).

Lemma mouse_down_change g button pos g' :
  Game.wf g →
  Game.result (Game.handle_mouse_down g button pos) = Some g' → change g g'.
Proof.
  intros Hwf.
  destruct (decide (button = 1%Z)) as [->|H1].
  - destruct (Rect.collidepoint (Deck.deck_rect (Game.deck g)) pos) eqn:Hdeck.
    + destruct (list_nil_or_snoc (Deck.cards (Game.deck g))) as [Hcs|(cs & c & Hcs)].
      * rewrite left_click_empty_deck by done. intros [= <-]. constructor.
      * rewrite (left_click_deck g pos cs c) by done. intros [= <-].
        by constructor.
    + destruct (table_hit_cases (Game.heap g) pos (Game.cards_on_table g))
        as [Hmiss|(below & c & above & Htable & Hc & Habove)].
      * rewrite left_click_nothing by done. intros [= <-]. constructor.
      * rewrite (left_click_card g pos below c above)
          by eauto using wf_not_below.
        intros [= <-]. by constructor.
  - destruct (decide (button = 3%Z)) as [->|H3].
    + destruct (table_hit_cases (Game.heap g) pos (Game.cards_on_table g))
        as [Hmiss|(below & c & above & Htable & Hc & Habove)].
      * rewrite right_click_nothing by done. intros [= <-]. constructor.
      * rewrite (right_click_card g pos below c above) by done.
        intros [= <-]. constructor.
        rewrite Htable, elem_of_app, elem_of_cons. auto.
    + rewrite other_button_down by done. intros [= <-]. constructor.
Qed.

Lemma dispatch_change g ev g' :
  Game.wf g → Game.dispatch g ev = Some g' → change g g'.
Proof.
  intros Hwf. destruct ev as [|button pos|button pos|pos|]; simpl.
  - intros [= <-]. constructor.
  - by apply mouse_down_change.
  - intros [= <-]. unfold Game.handle_mouse_up.
    destruct (button =? 1)%Z; constructor.
  - intros [= <-]. destruct (Game.held_card g) as [c|] eqn:Hheld.
    + rewrite (motion_held g pos c) by done. by constructor.
    + rewrite motion_idle by done. constructor.
  - intros [= <-]. constructor.
Qed.

(** A property of the initial states that every change keeps holds after
    any events. *)
Lemma handle_events_ind (P : Game.t → Prop) :
  (∀ g g', Game.wf g → P g → change g g' → P g') →
  ∀ g evs, Game.wf g → P g →
    ∃ g', Game.handle_events g evs = Some g' ∧ Game.wf g' ∧ P g'.
Proof.
  intros Hstep g evs. revert g.
  induction evs as [|ev evs IH]; intros g Hwf HP; simpl; [eauto|].
  destruct (wf_dispatch g ev Hwf) as (g1 & Hg1 & Hwf1). rewrite Hg1.
  apply IH; [done|]. eauto using dispatch_change.
Qed.

End changes.

(** ** What a session keeps *)

Section kept.
Implicit Types (g : Game.t) (pos : Pos) (c : ref).

Lemma init_fields rng :
  Game.heap (Game.__init__ rng) = new_cards
  ∧ Deck.cards (Game.deck (Game.__init__ rng)) ≡ₚ seq 0 52
  ∧ Deck.deck_rect (Game.deck (Game.__init__ rng)) = Rect.mk 30 30 80 120
  ∧ Game.cards_on_table (Game.__init__ rng) = []
  ∧ Game.held_card (Game.__init__ rng) = None.
Proof.
  unfold Game.__init__, new_cards.
  destruct (fresh_deck_cards rng) as [Hp Hr].
  destruct (Deck_init_eq rng) as [_ Hhp].
  destruct (Deck.__init__ rng []) as [[d hp] rng'].
  cbn [fst snd] in Hp, Hr, Hhp. by subst hp.
Qed.

Lemma fmap_alter_fixed (f : Card.t → Card.t) c (hp : Heap) :
  (∀ card, fixed_part (f card) = fixed_part card) →
  fixed_part <$> alter f c hp = fixed_part <$> hp.
Proof.
  intros Hf. revert c. induction hp as [|card hp IH]; intros [|c]; [done..| |].
  - simpl. by rewrite Hf.
  - simpl. f_equal. apply IH.
Qed.

Lemma change_fixed g g' :
  change g g' → fixed_part <$> Game.heap g' = fixed_part <$> Game.heap g.
Proof. destruct 1; simpl; try done; by apply fmap_alter_fixed. Qed.

Lemma change_cards g g' :
  change g g' →
  Deck.cards (Game.deck g') ++ Game.cards_on_table g'
  ≡ₚ Deck.cards (Game.deck g) ++ Game.cards_on_table g.
Proof.
  destruct 1 as [|cs c pos off Hcs|below c above off Htable| | |]; simpl; try done.
  - rewrite Hcs. solve_Permutation.
  - rewrite Htable. solve_Permutation.
Qed.

Lemma change_deck g g' :
  change g g' →
  Deck.cards (Game.deck g') `prefix_of` Deck.cards (Game.deck g)
  ∧ Deck.deck_rect (Game.deck g') = Deck.deck_rect (Game.deck g).
Proof.
  destruct 1 as [|cs c pos off Hcs| | | |]; simpl; try done.
  rewrite Hcs. split; [by apply prefix_app_r|done].
Qed.

Lemma change_held_last g g' :
  change g g' →
  from_option (λ c, last (Game.cards_on_table g) = Some c) True (Game.held_card g) →
  from_option (λ c, last (Game.cards_on_table g') = Some c) True (Game.held_card g').
Proof.
  destruct 1 as [| | | | |c o Hheld]; simpl; try done.
  - intros _. apply last_snoc.
  - intros _. by rewrite (assoc_L (++)), last_snoc.
  - by rewrite Hheld.
Qed.

Lemma wf_disjoint g c :
  Game.wf g → c ∈ Game.cards_on_table g → c ∉ Deck.cards (Game.deck g).
Proof.
  intros (Hnd & _) Htable Hdeck.
  apply NoDup_app in Hnd as (_ & Hdisj & _). by apply (Hdisj c).
Qed.

Lemma change_deck_untouched g g' :
  Game.wf g → change g g' →
  ∀ d, d ∈ Deck.cards (Game.deck g') → Game.heap g' !! d = Game.heap g !! d.
Proof.
  intros Hwf Hch.
  destruct Hch as [|cs c pos off Hcs| |c Hc| |c o Hheld]; simpl; try done.
  - intros d Hd. apply list_lookup_alter_ne. intros ->.
    destruct Hwf as (Hnd & _). rewrite Hcs in Hnd.
    apply NoDup_app in Hnd as (Hnd & _).
    apply NoDup_app in Hnd as (_ & Hdisj & _).
    apply (Hdisj d Hd). by left.
  - intros d Hd. apply list_lookup_alter_ne. intros ->.
    by apply (wf_disjoint g d).
  - intros d Hd. apply list_lookup_alter_ne. intros ->.
    apply (wf_disjoint g d); [done| |done].
    destruct Hwf as (_ & _ & Hin & _). by rewrite Hheld in Hin.
Qed.

End kept.

(** X1: whatever the events, no card is lost, duplicated or created: the
    deck and the table together always hold each of the 52 cards exactly
    once, so their sizes add up to 52. *)
Theorem cards_conserved (rng : Rng) (evs : list Event) :
  ∃ g, Game.handle_events (Game.__init__ rng) evs = Some g
    ∧ Deck.cards (Game.deck g) ++ Game.cards_on_table g ≡ₚ seq 0 52
    ∧ NoDup (Deck.cards (Game.deck g) ++ Game.cards_on_table g)
    ∧ length (Deck.cards (Game.deck g)) + length (Game.cards_on_table g) = 52
    ∧ length (Game.heap g) = 52.
Proof.
  destruct (init_fields rng) as (Hhp & Hp & _ & Htable & _).
  destruct (handle_events_ind
    (λ g, Deck.cards (Game.deck g) ++ Game.cards_on_table g ≡ₚ seq 0 52
          ∧ fixed_part <$> Game.heap g = fixed_part <$> new_cards)
    ) with (g := Game.__init__ rng) (evs := evs)
    as (g & Hg & Hwf & Hperm & Hfixed).
  - intros g g' _ [Hperm Hfixed] Hch.
    by rewrite (change_cards g g'), (change_fixed g g').
  - apply wf_init.
  - by rewrite Htable, app_nil_r, Hhp.
  - exists g. split; [done|]. split; [done|].
    split; [rewrite Hperm; apply NoDup_seq|].
    split; [by rewrite <-length_app, Hperm|].
    apply (f_equal length) in Hfixed. rewrite !length_fmap in Hfixed.
    rewrite Hfixed. apply generate_heap_length.
Qed.

(** X2: events never change what a card is: after any events each of the
    52 card objects has the rank, suit and colour it was created with and
    its rectangle is still 80 by 120. *)
Theorem card_identity_kept (rng : Rng) (evs : list Event) :
  ∃ g, Game.handle_events (Game.__init__ rng) evs = Some g
    ∧ fixed_part <$> Game.heap g = fixed_part <$> new_cards
    ∧ (∀ c, face (Game.heap g) c = face new_cards c)
    ∧ Forall (λ card, Rect.w (Card.rect card) = CARD_WIDTH
                      ∧ Rect.h (Card.rect card) = CARD_HEIGHT) (Game.heap g).
Proof.
  destruct (init_fields rng) as (Hhp & _).
  destruct (handle_events_ind
    (λ g, fixed_part <$> Game.heap g = fixed_part <$> new_cards))
    with (g := Game.__init__ rng) (evs := evs) as (g & Hg & Hwf & Hfixed).
  - intros g g' _ Hfixed Hch. by rewrite (change_fixed g g').
  - apply wf_init.
  - by rewrite Hhp.
  - exists g. split; [done|]. split; [done|].
    assert (∀ c, fixed_part (Game.heap g !!! c) = fixed_part (new_cards !!! c))
      as Hat.
    { intros c. rewrite !list_lookup_total_alt.
      apply (f_equal (λ l, l !! c)) in Hfixed. rewrite !list_lookup_fmap in Hfixed.
      destruct (Game.heap g !! c), (new_cards !! c);
        cbn [fmap option_fmap option_map default] in Hfixed |- *;
        unfold id; congruence. }
    split.
    + intros c. specialize (Hat c). unfold face. unfold fixed_part in Hat.
      congruence.
    + assert (Forall (λ p, p.1.2 = CARD_WIDTH ∧ p.2 = CARD_HEIGHT)
                (fixed_part <$> Game.heap g)) as Hall.
      { rewrite Hfixed. by_eval. }
      rewrite Forall_fmap in Hall. exact Hall.
Qed.

(** X3: the deck only ever loses cards from its end: after any events the
    deck is a prefix of what it was, its rectangle is where it was, and
    the cards that left it are on the table with those that were there. *)
Theorem deck_only_shrinks (g : Game.t) (evs : list Event) :
  Game.wf g →
  ∃ g' drawn, Game.handle_events g evs = Some g'
    ∧ Deck.cards (Game.deck g) = Deck.cards (Game.deck g') ++ drawn
    ∧ Deck.deck_rect (Game.deck g') = Deck.deck_rect (Game.deck g)
    ∧ Game.cards_on_table g' ≡ₚ Game.cards_on_table g ++ drawn.
Proof.
  intros Hwf.
  destruct (handle_events_ind
    (λ g', Deck.cards (Game.deck g') `prefix_of` Deck.cards (Game.deck g)
           ∧ Deck.deck_rect (Game.deck g') = Deck.deck_rect (Game.deck g)
           ∧ Deck.cards (Game.deck g') ++ Game.cards_on_table g'
             ≡ₚ Deck.cards (Game.deck g) ++ Game.cards_on_table g))
    with (g := g) (evs := evs) as (g' & Hg' & _ & [drawn Hpre] & Hrect & Hperm).
  - intros g1 g2 _ (Hpre & Hrect & Hperm) Hch.
    destruct (change_deck g1 g2 Hch) as [Hpre' Hrect'].
    split; [by etrans|]. split; [congruence|].
    by rewrite (change_cards g1 g2).
  - done.
  - done.
  - exists g', drawn. split; [done|]. split; [done|]. split; [done|].
    rewrite Hpre, <-(assoc_L (++)) in Hperm.
    apply Permutation_app_inv_l in Hperm. rewrite Hperm. solve_Permutation.
Qed.

(** A press at (50, 50) in a session that has drawn two cards draws the
    third one: the deck loses its last card, card 50, to the table. *)
Lemma deck_only_shrinks_witness :
  ∃ g' drawn,
    Game.handle_events (session draw_two) [MOUSEBUTTONDOWN 1 (50, 50)%Z] = Some g'
    ∧ Deck.cards (Game.deck (session draw_two))
      = Deck.cards (Game.deck g') ++ drawn
    ∧ Deck.deck_rect (Game.deck g') = Deck.deck_rect (Game.deck (session draw_two))
    ∧ Game.cards_on_table g' ≡ₚ Game.cards_on_table (session draw_two) ++ drawn.
Proof.
  assert (Game.wf (session draw_two)) as Hwf by by_eval.
  exact (deck_only_shrinks _ [MOUSEBUTTONDOWN 1 (50, 50)%Z] Hwf).
Defined.

(** ** The frame *)

Lemma card_draw_blit (hp : Heap) c : Card.draw c (hp !!! c) = [card_blit hp c].
Proof. unfold Card.draw, card_blit. by destruct (Card.is_flipped _). Qed.

Lemma table_blits (hp : Heap) (cs : list ref) :
  flat_map (λ c, Card.draw c (hp !!! c)) cs = card_blit hp <$> cs.
Proof.
  induction cs as [|c cs IH]; [done|]. simpl.
  by rewrite card_draw_blit, IH.
Qed.

Lemma draw_layout g :
  Game.draw g =
    [Fill BG_COLOR] ++ Deck.draw (Game.deck g)
    ++ (card_blit (Game.heap g) <$> Game.cards_on_table g)
    ++ match Game.held_card g with
       | Some c =>
           [DrawRect COLOR_YELLOW_SELECT (Card.rect (Game.heap g !!! c)) 4
              CARD_CORNER_RADIUS]
       | None => []
       end.
Proof. unfold Game.draw. by rewrite table_blits. Qed.

(** X4: after any events a held card is the last card of the table, so
    the frame ends with the picture of the held card followed by the yellow
    border around the same rectangle: the card being dragged is drawn over all
    the others. *)
Theorem held_card_drawn_on_top (rng : Rng) (evs : list Event) :
  ∃ g, Game.handle_events (Game.__init__ rng) evs = Some g
    ∧ ∀ c, Game.held_card g = Some c →
        ∃ rest, Game.cards_on_table g = rest ++ [c]
          ∧ Game.draw g =
              [Fill BG_COLOR] ++ Deck.draw (Game.deck g)
              ++ (card_blit (Game.heap g) <$> rest)
              ++ [ card_blit (Game.heap g) c;
                   DrawRect COLOR_YELLOW_SELECT
                     (Card.rect (Game.heap g !!! c)) 4 CARD_CORNER_RADIUS ].
Proof.
  destruct (init_fields rng) as (_ & _ & _ & _ & Hheld0).
  destruct (handle_events_ind
    (λ g, from_option (λ c, last (Game.cards_on_table g) = Some c) True
            (Game.held_card g)))
    with (g := Game.__init__ rng) (evs := evs) as (g & Hg & _ & Hlast).
  - intros g g' _ Hlast Hch. by apply (change_held_last g g').
  - apply wf_init.
  - by rewrite Hheld0.
  - exists g. split; [done|]. intros c Hheld. rewrite Hheld in Hlast. simpl in Hlast.
    apply last_Some in Hlast as [rest Hrest]. exists rest. split; [done|].
    rewrite draw_layout, Hheld, Hrest, fmap_app. simpl.
    by rewrite <-!(assoc_L (++)).
Qed.

(** ** Cards still in the deck *)

(** X5: events never touch a card that is still in the deck: after any
    events every card of the deck is the object its constructor made, face
    down with its rectangle at the origin. *)
Theorem deck_cards_untouched (rng : Rng) (evs : list Event) :
  ∃ g, Game.handle_events (Game.__init__ rng) evs = Some g
    ∧ Forall (λ c, Game.heap g !! c = new_cards !! c
                   ∧ is_Some (new_cards !! c)
                   ∧ Card.is_flipped (Game.heap g !!! c) = false
                   ∧ Card.rect (Game.heap g !!! c)
                     = Rect.mk 0 0 CARD_WIDTH CARD_HEIGHT)
        (Deck.cards (Game.deck g)).
Proof.
  destruct (init_fields rng) as (Hhp & _).
  destruct (handle_events_ind
    (λ g, ∀ d, d ∈ Deck.cards (Game.deck g) → Game.heap g !! d = new_cards !! d))
    with (g := Game.__init__ rng) (evs := evs) as (g & Hg & Hwf & Hsame).
  - intros g g' Hwf Hsame Hch d Hd.
    rewrite (change_deck_untouched g g' Hwf Hch d Hd). apply Hsame.
    destruct (change_deck g g' Hch) as [[k ->] _].
    apply elem_of_app. by left.
  - apply wf_init.
  - intros d _. by rewrite Hhp.
  - exists g. split; [done|]. apply Forall_forall. intros c Hc.
    pose proof (Hsame c Hc) as Hlook.
    pose proof (wf_lt_deck g c Hwf Hc) as Hlt.
    apply lookup_lt_is_Some_2 in Hlt as [card Hcard].
    assert (Forall (λ card, Card.is_flipped card = false
                            ∧ Card.rect card = Rect.mk 0 0 CARD_WIDTH CARD_HEIGHT)
              new_cards) as Hnew by by_eval.
    rewrite Hcard in Hlook. symmetry in Hlook.
    eapply Forall_forall in Hnew; [|by eapply list_elem_of_lookup_2].
    rewrite list_lookup_total_alt, Hcard. simpl.
    split; [done|]. split; [by rewrite Hlook|]. exact Hnew.
Qed.

(** ** Drawing several cards *)

(** X6: the deck is a stack: [n] successive calls of [draw_card] return the
    last [n] cards of the deck, the last one first, and leave the others in
    their order. *)
Theorem draws_last_first (kept taken : list ref) (r : Rect.t) :
  draws (length taken) (Deck.mk (kept ++ taken) r)
  = Some (Some <$> reverse taken, Deck.mk kept r).
Proof.
  induction taken as [|c taken IH] using rev_ind.
  - by rewrite app_nil_r.
  - rewrite length_app, Nat.add_comm. simpl.
    rewrite (assoc_L (++)), draw_card_snoc, IH. by rewrite reverse_snoc.
Qed.

(** ** A card drawn from the deck *)

(** X7: a card drawn from the deck stays centred under the pointer: after
    the press on the deck and any pointer moves, the centre of the drawn
    card is the last pointer position, the card is held and on top, and the
    drag offset is half the size of the card. *)
Theorem drawn_card_follows_pointer (g : Game.t) (pos : Pos) (ms : list Pos)
    (p' : Pos) (cs : list ref) (c : ref) :
  Game.wf g →
  Rect.collidepoint (Deck.deck_rect (Game.deck g)) pos = true →
  Deck.cards (Game.deck g) = cs ++ [c] →
  ∃ g2,
    Game.handle_events g
      (MOUSEBUTTONDOWN 1 pos :: (MOUSEMOTION <$> (ms ++ [p']))) = Some g2
    ∧ Game.held_card g2 = Some c
    ∧ last (Game.cards_on_table g2) = Some c
    ∧ Rect.center (Card.rect (Game.heap g2 !!! c)) = p'
    ∧ Game.drag_offset g2
      = (Z.shiftr (Rect.w (Card.rect (Game.heap g !!! c))) 1,
         Z.shiftr (Rect.h (Card.rect (Game.heap g !!! c))) 1).
Proof.
  intros Hwf Hdeck Hcs.
  assert (c < length (Game.heap g)) as Hc.
  { apply wf_lt_deck; [done|]. rewrite Hcs, elem_of_app, list_elem_of_singleton. auto. }
  eexists. split.
  { cbn [Game.handle_events Game.dispatch].
    rewrite (left_click_deck g pos cs c) by done. cbn [Game.result].
    apply handle_motions. }
  rewrite (motion_held _ p' c) by done. cbn -[alter].
  rewrite !list_lookup_total_alter_eq by (by rewrite ?length_alter).
  destruct pos as [px py], p' as [qx qy].
  unfold Rect.center, move_to, Card.with_rect, Rect.set_center. cbn.
  split_and!; [done|apply last_snoc|f_equal; lia|f_equal; lia].
Qed.

(** The first card of a session, drawn at (50, 50) and dragged to
    (300, 300), is centred there; the offset is (40, 60). *)
Lemma drawn_card_follows_pointer_witness :
  ∃ g2,
    Game.handle_events (session [])
      [MOUSEBUTTONDOWN 1 (50, 50)%Z; MOUSEMOTION (300, 300)%Z] = Some g2
    ∧ Rect.center (Card.rect (Game.heap g2 !!! 0)) = (300, 300)%Z
    ∧ Game.drag_offset g2 = (40, 60)%Z.
Proof.
  assert (Game.wf (session [])) as Hwf by by_eval.
  assert (Rect.collidepoint (Deck.deck_rect (Game.deck (session []))) (50, 50)%Z
          = true) as Hdeck by by_eval.
  assert (Deck.cards (Game.deck (session [])) = seq 1 51 ++ [0]) as Hcs by by_eval.
  destruct (drawn_card_follows_pointer _ _ [] (300, 300)%Z _ _ Hwf Hdeck Hcs)
    as (g2 & Hg2 & _ & _ & Hcenter & Hoff).
  exists g2. split; [exact Hg2|]. split; [exact Hcenter|vm_cast_no_check Hoff].
Defined.

(** ** Events without effect *)

Lemma release_idle (g : Game.t) button :
  Game.held_card g = None → Game.handle_mouse_up g button = g.
Proof.
  intros Hheld. unfold Game.handle_mouse_up. destruct (button =? 1)%Z; [|done].
  rewrite <-Hheld. apply eta.
Qed.

(** X8: while no card is held, pointer moves, button releases and events of
    other kinds change nothing: only a press can change an idle session. *)
Theorem idle_session_unchanged (g : Game.t) (evs : list Event) :
  Game.held_card g = None →
  Forall (λ ev, is_press ev = false) evs →
  Game.handle_events g evs = Some g.
Proof.
  intros Hheld Hevs. induction Hevs as [|ev evs Hev _ IH]; [done|].
  cbn [Game.handle_events].
  assert (Game.dispatch g ev = Some g) as ->; [|exact IH].
  destruct ev as [|button pos|button pos|pos|]; cbn [Game.dispatch];
    [done|discriminate Hev| | |done].
  - by rewrite release_idle.
  - by rewrite motion_idle.
Qed.

(** With two cards on the table and none held, moving the pointer over
    them and releasing buttons leaves the session as it is. *)
Lemma idle_session_unchanged_witness :
  Game.handle_events (session draw_two)
    [MOUSEMOTION (300, 300)%Z; MOUSEBUTTONUP 1 (300, 300)%Z;
     MOUSEBUTTONUP 3 (300, 300)%Z; OTHER; MOUSEMOTION (0, 0)%Z]
  = Some (session draw_two).
Proof.
  apply idle_session_unchanged.
  - by_eval.
  - repeat constructor.
Defined.

(** ** The main loop *)

(** X9: the main loop ends with the first batch of events that holds a
    [QUIT]: that batch is still handled to its end and its frame drawn, the
    batches after it are never looked at, and one frame was drawn for each
    batch handled. *)
Theorem run_stops_at_quit (g : Game.t) (before : list (list Event))
    (evs : list Event) (after : list (list Event)) :
  Game.wf g →
  Forall (λ b, existsb Game.is_QUIT b = false) before →
  existsb Game.is_QUIT evs = true →
  ∃ g' frames,
    Game.run g (before ++ evs :: after) = Some (g', frames)
    ∧ Game.handle_events g (concat before ++ evs) = Some g'
    ∧ length frames = S (length before)
    ∧ last frames = Some (Game.draw g').
Proof.
  intros Hwf Hbefore Hquit. revert g Hwf.
  induction Hbefore as [|b before Hb _ IH]; intros g Hwf.
  - destruct (wf_handle_events g evs Hwf) as (g1 & Hg1 & _).
    exists g1, [Game.draw g1]. cbn [app concat Game.run].
    by rewrite Hg1, Hquit.
  - destruct (wf_handle_events g b Hwf) as (g1 & Hg1 & Hwf1).
    destruct (IH g1 Hwf1) as (g' & frames & Hrun & Hall & Hlen & Hlast).
    exists g', (Game.draw g1 :: frames).
    cbn [app concat Game.run]. rewrite Hg1, Hb, Hrun.
    split; [done|]. split.
    { rewrite <-(assoc_L (++)), handle_events_app, Hg1. exact Hall. }
    split; [by rewrite length_cons, Hlen|].
    destruct frames as [|f frames]; [done|]. exact Hlast.
Qed.

(** A first batch without [QUIT], a second one with a [QUIT] followed by a
    press on the deck, and a third one that is never handled: the press
    after the [QUIT] still draws a card, two frames are drawn. *)
Lemma run_stops_at_quit_witness :
  ∃ g' frames,
    Game.run (session [])
      ([[MOUSEMOTION (10, 10)%Z]]
       ++ [QUIT; MOUSEBUTTONDOWN 1 (50, 50)%Z]
       :: [[MOUSEBUTTONDOWN 1 (60, 60)%Z]]) = Some (g', frames)
    ∧ Game.cards_on_table g' = [0]
    ∧ length frames = 2.
Proof.
  assert (Game.wf (session [])) as Hwf by by_eval.
  destruct (run_stops_at_quit (session []) [[MOUSEMOTION (10, 10)%Z]]
              [QUIT; MOUSEBUTTONDOWN 1 (50, 50)%Z]
              [[MOUSEBUTTONDOWN 1 (60, 60)%Z]] Hwf)
    as (g' & frames & Hrun & Hall & Hlen & _).
  - repeat constructor.
  - reflexivity.
  - exists g', frames. split; [exact Hrun|]. split; [|exact Hlen].
    assert (Game.cards_on_table <$> Some g' = Some [0]) as Htable
      by (rewrite <-Hall; by_eval).
    injection Htable as Htable. exact Htable.
Defined.

(** ** Flipping and the frame *)

Lemma card_blit_alter_flip_ne (hp : Heap) c (cs : list ref) :
  c ∉ cs → card_blit (alter Card.flip c hp) <$> cs = card_blit hp <$> cs.
Proof.
  induction cs as [|d cs IH]; [done|].
  intros [Hcd Hc]%not_elem_of_cons. rewrite !fmap_cons, IH by done. f_equal.
  unfold card_blit. by rewrite list_lookup_total_alter_ne.
Qed.

Lemma deck_draw_length d : length (Deck.draw d) = 1.
Proof. unfold Deck.draw. by destruct (Deck.cards d). Qed.

(** X10: a flip changes exactly one request of the frame: the picture of
    the flipped card, at its place in the drawing order and at the same
    rectangle, shows the other side; everything before and after it in the
    frame is as it was. *)
Theorem flip_changes_one_request (g : Game.t) (pos : Pos)
    (below : list ref) (c : ref) (above : list ref) :
  Game.wf g →
  Game.cards_on_table g = below ++ c :: above →
  contains (Game.heap g) pos c →
  Forall (λ c', ¬ contains (Game.heap g) pos c') above →
  ∃ g' before after,
    Game.result (Game.handle_mouse_down g 3 pos) = Some g'
    ∧ length before = 2 + length below
    ∧ Game.draw g =
        before
        ++ [Blit (if Card.is_flipped (Game.heap g !!! c)
                  then image_of c else back_image_of c)
                 (Card.rect (Game.heap g !!! c))]
        ++ after
    ∧ Game.draw g' =
        before
        ++ [Blit (if Card.is_flipped (Game.heap g !!! c)
                  then back_image_of c else image_of c)
                 (Card.rect (Game.heap g !!! c))]
        ++ after.
Proof.
  intros Hwf Htable Hc Habove.
  assert (c < length (Game.heap g)) as Hlt.
  { apply wf_lt_table; [done|]. rewrite Htable, elem_of_app, elem_of_cons. auto. }
  assert ((c ∉ below) ∧ (c ∉ above)) as [Hbelow Hnabove].
  { destruct Hwf as (Hnd & _). rewrite Htable in Hnd.
    apply NoDup_app in Hnd as (_ & _ & Hnd).
    apply NoDup_app in Hnd as (_ & Hdisj & Hnd).
    apply NoDup_cons in Hnd as [Hnotin _]. split; [|done].
    intros Hin. apply (Hdisj c Hin). by left. }
  eexists _,
    ([Fill BG_COLOR] ++ Deck.draw (Game.deck g)
     ++ (card_blit (Game.heap g) <$> below)),
    ((card_blit (Game.heap g) <$> above)
     ++ match Game.held_card g with
        | Some h =>
            [DrawRect COLOR_YELLOW_SELECT (Card.rect (Game.heap g !!! h)) 4
               CARD_CORNER_RADIUS]
        | None => []
        end).
  split; [by rewrite (right_click_card g pos below c above)|].
  split.
  { rewrite !length_app, deck_draw_length, length_fmap. done. }
  rewrite !draw_layout. cbn -[alter].
  rewrite Htable, !fmap_app, !fmap_cons.
  rewrite !card_blit_alter_flip_ne by done.
  split.
  - by rewrite <-!(assoc_L (++)).
  - unfold card_blit at 2. rewrite list_lookup_total_alter_eq by done.
    assert (∀ h, Card.rect (alter Card.flip c (Game.heap g) !!! h)
                 = Card.rect (Game.heap g !!! h)) as Hrect
      by (intros h; apply rect_alter_flip).
    destruct (Game.held_card g) as [h|]; [rewrite (Hrect h)|];
      destruct (Game.heap g !!! c) as [? ? ? [] ?]; cbn;
      by rewrite <-!(assoc_L (++)).
Qed.

(** With cards 0 and 51 on the table, a secondary-button press at
    (300, 300) flips card 51: the fourth request of the frame changes from
    the back image of card 51 to its front image. *)
Lemma flip_changes_one_request_witness :
  ∃ g' before after,
    Game.result (Game.handle_mouse_down (session draw_two) 3 (300, 300)%Z)
    = Some g'
    ∧ length before = 3
    ∧ Game.draw (session draw_two)
      = before ++ [Blit (back_image_of 51) (Rect.mk 280 270 80 120)] ++ after
    ∧ Game.draw g'
      = before ++ [Blit (image_of 51) (Rect.mk 280 270 80 120)] ++ after.
Proof.
  assert (Game.wf (session draw_two)) as Hwf by by_eval.
  destruct (flip_changes_one_request (session draw_two) (300, 300)%Z [0] 51 []
              Hwf) as (g' & before & after & Hres & Hlen & Hold & Hnew);
    [by_eval..|].
  exists g', before, after. split; [exact Hres|]. split; [exact Hlen|].
  split; [vm_cast_no_check Hold|vm_cast_no_check Hnew].
Defined.

(** ** The picture of the deck *)

(** X11: the picture of the deck never changes while a card is left in it:
    [Deck.draw] shows the back of the first card of the list, which is the
    last one to be drawn, so after any events the deck is drawn by the same
    request as before, and by the grey outline once it is empty. *)
Theorem deck_picture_constant (g : Game.t) (evs : list Event) :
  Game.wf g →
  ∃ g', Game.handle_events g evs = Some g'
    ∧ (Deck.cards (Game.deck g') ≠ [] →
       Deck.draw (Game.deck g') = Deck.draw (Game.deck g))
    ∧ (Deck.cards (Game.deck g') = [] →
       Deck.draw (Game.deck g')
       = [DrawRect COLOR_GREY (Deck.deck_rect (Game.deck g)) 2
            CARD_CORNER_RADIUS]).
Proof.
  intros Hwf.
  destruct (handle_events_ind
    (λ g', Deck.cards (Game.deck g') `prefix_of` Deck.cards (Game.deck g)
           ∧ Deck.deck_rect (Game.deck g') = Deck.deck_rect (Game.deck g)))
    with (g := g) (evs := evs) as (g' & Hg' & _ & [drawn Hpre] & Hrect).
  - intros g1 g2 _ (Hpre & Hrect) Hch.
    destruct (change_deck g1 g2 Hch) as [Hpre' Hrect'].
    split; [by etrans|congruence].
  - done.
  - done.
  - exists g'. split; [done|]. unfold Deck.draw. rewrite Hpre, Hrect.
    destruct (Deck.cards (Game.deck g')) as [|c0 cs]; [|done].
    split; [done|]. intros _. done.
Qed.

(** After three more cards are drawn from a session that had drawn two,
    the deck is still drawn by the same request. *)
Lemma deck_picture_constant_witness :
  ∃ g',
    Game.handle_events (session draw_two)
      [MOUSEBUTTONDOWN 1 (50, 50)%Z; MOUSEBUTTONUP 1 (50, 50)%Z;
       MOUSEBUTTONDOWN 1 (50, 50)%Z] = Some g'
    ∧ Deck.draw (Game.deck g') = Deck.draw (Game.deck (session draw_two)).
Proof.
  assert (Game.wf (session draw_two)) as Hwf by by_eval.
  destruct (deck_picture_constant (session draw_two)
              [MOUSEBUTTONDOWN 1 (50, 50)%Z; MOUSEBUTTONUP 1 (50, 50)%Z;
               MOUSEBUTTONDOWN 1 (50, 50)%Z] Hwf) as (g' & Hg' & Hsame & _).
  exists g'. split; [exact Hg'|]. apply Hsame.
  assert (Deck.cards ∘ Game.deck <$> Some g' = Some (seq 1 48)) as Hcards
    by (rewrite <-Hg'; by_eval).
  injection Hcards as Hcards. unfold compose in Hcards. rewrite Hcards. discriminate.
Defined.

(** ** The initial state *)

(** X12: whatever the random generator, a new [Game] has all 52 cards in
    the deck, in some order, each as its constructor made it, nothing on the
    table, no card held, a zero drag offset and the deck rectangle at
    (30, 30) with the size of a card; it is well formed, and its first frame
    is the background and the back of one card at the deck rectangle. *)
Theorem initial_state (rng : Rng) :
  let g := Game.__init__ rng in
  Deck.cards (Game.deck g) ≡ₚ (Deck._generate []).1
  ∧ length (Deck.cards (Game.deck g)) = 52
  ∧ Game.heap g = new_cards
  ∧ Deck.deck_rect (Game.deck g)
    = Rect.mk DECK_POS.1 DECK_POS.2 CARD_WIDTH CARD_HEIGHT
  ∧ Game.cards_on_table g = []
  ∧ Game.held_card g = None
  ∧ Game.drag_offset g = (0, 0)%Z
  ∧ Game.wf g
  ∧ ∃ c0, c0 < 52
      ∧ Game.draw g
        = [Fill BG_COLOR; Blit (back_image_of c0) (Rect.mk 30 30 80 120)].
Proof.
  cbv zeta. destruct (init_fields rng) as (Hhp & Hp & Hrect & Htable & Hheld).
  pose proof (wf_init rng) as Hwf.
  assert (Game.drag_offset (Game.__init__ rng) = (0, 0)%Z) as Hoff.
  { unfold Game.__init__. by destruct (Deck.__init__ rng []) as [[??]?]. }
  split; [by rewrite generate_cards|].
  split; [by rewrite Hp|].
  split; [done|]. split; [exact Hrect|]. split; [done|]. split; [done|].
  split; [done|]. split; [done|].
  rewrite draw_layout, Htable, Hheld. unfold Deck.draw. rewrite Hrect.
  destruct (Deck.cards (Game.deck (Game.__init__ rng))) as [|c0 cs] eqn:Hcs.
  { apply Permutation_length in Hp. done. }
  exists c0. split; [|done].
  assert (c0 ∈ seq 0 52) as Hin by (rewrite <-Hp; by left).
  apply elem_of_seq in Hin. lia.
Qed.
